(** * orderfilter: topic codec and order-schema filter of 0x-mesh

    A shallow embedding of [orderfilter/filter.go].  Go strings are byte
    sequences and are modelled as [string] (one [ascii] per byte); Go's
    [int] is the 64-bit two's complement integer, carried as a [Z].  A
    call that returns a value and an error is a pair or a sum; a call
    that may dereference nil is an [outcome], with [Panic].

    The package leans on libraries, modelled as follows.
    - fmt and encoding/base64, whose behaviour on the format strings of
      the package decides what a topic decodes to, are modelled
      operationally: [fmt.Sprintf] and [fmt.Sscanf] for literal text and
      the verbs [%d] and [%s] (inputs shorter than the scanner's limit
      of 2^30 runes), [base64.EncodeToString] and [base64.DecodeString]
      for the URL-safe alphabet with padding.
    - gojsonschema is modelled for the keywords the built-in schemas are
      written with: id, $ref, type, pattern, properties, required, anyOf,
      oneOf and allOf.  A schema literal of the source is held as the
      document it denotes; names are compared as written.
    - canonicaljson, the Keccak hash of go-ethereum, the address table
      of the package ethereum and the engine's JSON reader are operations
      of the class [Collaborators].
    [ValidateOrder], whose argument type is declared in the package
    zeroex, is left out. *)

From Stdlib Require Import ZArith List String Ascii Bool Lia Arith QArith.
Import ListNotations.

#[local] Set Warnings "-register-all".

Local Open Scope string_scope.
Local Open Scope Z_scope.

(** ** Bytes *)

Definition byteZ (c : ascii) : Z := Z.of_N (N_of_ascii c).
Definition ofByteZ (z : Z) : ascii := ascii_of_N (Z.to_N z).

(** Go's [byte(x)] conversion of an unsigned value. *)
Definition toByte (z : Z) : ascii := ofByteZ (Z.land z 255).

(** Every byte of the string satisfies [p]. *)
Fixpoint allBytes (p : ascii -> bool) (s : string) : bool :=
  match s with
  | "" => true
  | String c r => p c && allBytes p r
  end.

(** ** fmt: printing *)

Module fmt.

(** Operands of the printing and scanning calls of this package. *)
Inductive arg :=
| AInt (i : Z)
| AStr (s : string).

Inductive kind := KInt | KStr.

Definition digitChar (d : Z) : ascii := ofByteZ (48 + d).

(** [fmtInteger] of fmt/format.go in base 10: digits are produced from the
    least significant one into a buffer that holds any 64-bit value. *)
Fixpoint fmtDigits (buf : nat) (u : Z) (acc : string) : string :=
  match buf with
  | O => acc
  | S k =>
      if u <? 10 then String (digitChar u) acc
      else fmtDigits k (u / 10) (String (digitChar (u mod 10)) acc)
  end.

Definition fmtInteger (i : Z) : string :=
  let ds := fmtDigits 20 (Z.abs i) "" in
  if i <? 0 then String "-" ds else ds.

(** [Sprintf] for the verbs this package prints with, [%d] on an int and
    [%s] on a string.  A verb with no operand, or with an operand of the
    other kind, prints Go's diagnostic in place; every other verb is
    outside the fragment and prints like those. *)
Definition badVerb (v : ascii) (a : arg) : string :=
  match a with
  | AInt i => "%!" ++ String v ("(int=" ++ fmtInteger i ++ ")")
  | AStr s => "%!" ++ String v ("(string=" ++ s ++ ")")
  end.

Definition printArg (v : ascii) (a : arg) : string :=
  match a with
  | AInt i => if Ascii.eqb v "d" then fmtInteger i else badVerb v a
  | AStr s => if Ascii.eqb v "s" then s else badVerb v a
  end.

Fixpoint extraArgs (l : list arg) : string :=
  match l with
  | [] => ""
  | a :: r =>
      (match a with
       | AInt i => "int=" ++ fmtInteger i
       | AStr s => "string=" ++ s
       end) ++ (match r with [] => "" | _ => ", " ++ extraArgs r end)
  end.

Fixpoint Sprintf (format : string) (a : list arg) : string :=
  match format with
  | "" => match a with [] => "" | _ => "%!(EXTRA " ++ extraArgs a ++ ")" end
  | String c f =>
      if Ascii.eqb c "%" then
        match f with
        | "" => "%!(NOVERB)"
        | String v f' =>
            if Ascii.eqb v "%" then String "%" (Sprintf f' a)
            else match a with
                 | [] => "%!" ++ String v ("(MISSING)" ++ Sprintf f' [])
                 | x :: a' => printArg v x ++ Sprintf f' a'
                 end
        end
      else String c (Sprintf f a)
  end.

(** ** fmt: scanning *)

(** The scanner reads runes.  [decodeRune] is utf8.DecodeRune on the head
    of the input: the code point, the bytes that writing the rune back
    produces, and the remaining input.  An invalid or truncated sequence
    is the error rune U+FFFD of width one. *)
Definition RuneError : Z := 65533.
Definition runeErrorBytes : string :=
  String (ofByteZ 239) (String (ofByteZ 191) (String (ofByteZ 189) "")).

Definition inRange (lo hi x : Z) : bool := (lo <=? x) && (x <=? hi).

Definition isCont (c : ascii) : bool := inRange 128 191 (byteZ c).

(** Width and accepted range of the second byte, from the table [first]
    of unicode/utf8. *)
Definition leadInfo (b : Z) : option (nat * Z * Z) :=
  if inRange 194 223 b then Some (2%nat, 128, 191)
  else if b =? 224 then Some (3%nat, 160, 191)
  else if inRange 225 236 b then Some (3%nat, 128, 191)
  else if b =? 237 then Some (3%nat, 128, 159)
  else if inRange 238 239 b then Some (3%nat, 128, 191)
  else if b =? 240 then Some (4%nat, 144, 191)
  else if inRange 241 243 b then Some (4%nat, 128, 191)
  else if b =? 244 then Some (4%nat, 128, 143)
  else None.

Definition decodeRune (c : ascii) (rest : string) : Z * string * string :=
  let b0 := byteZ c in
  let bad := (RuneError, runeErrorBytes, rest) in
  if b0 <? 128 then (b0, String c "", rest)
  else
    match leadInfo b0 with
    | None => bad
    | Some (w, lo, hi) =>
        match rest with
        | String c1 r1 =>
            let b1 := byteZ c1 in
            if negb (inRange lo hi b1) then bad
            else
              match w with
              | 2%nat =>
                  (Z.lor (Z.shiftl (Z.land b0 31) 6) (Z.land b1 63),
                   String c (String c1 ""), r1)
              | _ =>
                  match r1 with
                  | String c2 r2 =>
                      let b2 := byteZ c2 in
                      if negb (isCont c2) then bad
                      else
                        match w with
                        | 3%nat =>
                            (Z.lor (Z.shiftl (Z.land b0 15) 12)
                               (Z.lor (Z.shiftl (Z.land b1 63) 6) (Z.land b2 63)),
                             String c (String c1 (String c2 "")), r2)
                        | _ =>
                            match r2 with
                            | String c3 r3 =>
                                let b3 := byteZ c3 in
                                if negb (isCont c3) then bad
                                else
                                  (Z.lor (Z.shiftl (Z.land b0 7) 18)
                                     (Z.lor (Z.shiftl (Z.land b1 63) 12)
                                        (Z.lor (Z.shiftl (Z.land b2 63) 6)
                                           (Z.land b3 63))),
                                   String c (String c1 (String c2 (String c3 ""))),
                                   r3)
                            | "" => bad
                            end
                        end
                  | "" => bad
                  end
              end
        | "" => bad
        end
    end.

(** A rune of the input: its code point and the bytes it is written
    back as. *)
Definition rune : Type := Z * string.

(** The input as the sequence of runes the scanner's ReadRune delivers.
    Every step consumes at least one byte, so the length of the input
    bounds the number of steps. *)
Fixpoint runesFrom (steps : nat) (s : string) : list rune :=
  match steps with
  | O => []
  | S k =>
      match s with
      | "" => []
      | String c rest =>
          let '(r, w, rest') := decodeRune c rest in
          (r, w) :: runesFrom k rest'
      end
  end.

Definition runes (s : string) : list rune := runesFrom (String.length s) s.

(** The table [space] of fmt/scan.go. *)
Definition isSpace (r : Z) : bool :=
  inRange 9 13 r || (r =? 32) || (r =? 133) || (r =? 160) || (r =? 5760)
  || inRange 8192 8202 r || inRange 8232 8233 r || (r =? 8239)
  || (r =? 8287) || (r =? 12288).

Definition isRune (c : ascii) (r : rune) : bool := fst r =? byteZ c.

(** [ss.SkipSpace] of a scan that does not treat newlines as space
    (Sscanf): a newline is an error, reported as [None]. *)
Fixpoint SkipSpace (input : list rune) : option (list rune) :=
  match input with
  | [] => Some []
  | r :: rest =>
      if (fst r =? 13) && (match rest with
                           | r' :: _ => fst r' =? 10
                           | [] => false
                           end)
      then SkipSpace rest
      else if fst r =? 10 then None
      else if isSpace (fst r) then SkipSpace rest
      else Some input
  end.

(** [ss.token(false, notSpace)]: the runes up to the next space. *)
Fixpoint token (input : list rune) : string * list rune :=
  match input with
  | [] => ("", [])
  | r :: rest =>
      if isSpace (fst r) then ("", input)
      else let '(t, rest') := token rest in (snd r ++ t, rest')
  end.

(** [ss.convertString] for the verb [%s]. *)
Definition convertString (input : list rune) : option (string * list rune) :=
  match SkipSpace input with
  | None => None
  | Some [] => None
  | Some input' =>
      match SkipSpace input' with
      | None => None
      | Some input'' => Some (token input'')
      end
  end.

(** The digits [%d] accepts, "0123456789". *)
Definition isDecimalDigit (r : Z) : bool := inRange 48 57 r.

Fixpoint acceptDigits (input : list rune) : string * list rune :=
  match input with
  | [] => ("", [])
  | r :: rest =>
      if isDecimalDigit (fst r) then
        let '(t, rest') := acceptDigits rest in (snd r ++ t, rest')
      else ("", input)
  end.

(** strconv.ParseUint in base 10, without its range check. *)
Fixpoint parseDigits (acc : Z) (s : string) : option Z :=
  match s with
  | "" => Some acc
  | String c r =>
      let b := byteZ c in
      if inRange 48 57 b then parseDigits (acc * 10 + (b - 48)) r else None
  end.

(** strconv.ParseInt(tok, 10, 64). *)
Definition ParseInt (tok : string) : option Z :=
  match tok with
  | "" => None
  | String c r =>
      let neg := Ascii.eqb c "-" in
      let ds := if neg || Ascii.eqb c "+" then r else tok in
      match ds with
      | "" => None
      | _ =>
          match parseDigits 0 ds with
          | None => None
          | Some un =>
              if neg then (if un <=? 2 ^ 63 then Some (- un) else None)
              else (if un <? 2 ^ 63 then Some un else None)
          end
      end
  end.

(** [ss.scanInt] for the verb [%d] and an operand of type int. *)
Definition scanInt (input : list rune) : option (Z * list rune) :=
  match SkipSpace input with
  | None => None
  | Some [] => None
  | Some ((r :: rest) as input') =>
      let '(sign, afterSign) :=
        if (fst r =? 43) || (fst r =? 45) then (snd r, rest) else ("", input')
      in
      match afterSign with
      | [] => None
      | d :: _ =>
          if isDecimalDigit (fst d) then
            let '(ds, rest') := acceptDigits afterSign in
            match ParseInt (sign ++ ds) with
            | Some i => Some (i, rest')
            | None => None
            end
          else None
      end
  end.

(** [ss.doScanf] for formats made of literal characters other than
    spaces and the verbs [%d] and [%s]; any other format is outside the
    fragment and scans nothing ([None]).  Each error of the scanner is
    [None]. *)
Fixpoint doScanf (format : string) (a : list kind) (input : list rune)
  : option (list arg) :=
  match format with
  | "" => match a with [] => Some [] | _ => None end
  | String c f =>
      if Ascii.eqb c "%" then
        match f with
        | "" => None
        | String v f' =>
            match SkipSpace input with
            | None => None
            | Some input' =>
                match a with
                | [] => None
                | k :: a' =>
                    if Ascii.eqb v "d" then
                      match k with
                      | KInt =>
                          match scanInt input' with
                          | Some (i, rest) =>
                              option_map (cons (AInt i)) (doScanf f' a' rest)
                          | None => None
                          end
                      | KStr => None
                      end
                    else if Ascii.eqb v "s" then
                      match k with
                      | KStr =>
                          match convertString input' with
                          | Some (s, rest) =>
                              option_map (cons (AStr s)) (doScanf f' a' rest)
                          | None => None
                          end
                      | KInt => None
                      end
                    else None
                end
            end
        end
      else if isSpace (byteZ c) then None
      else
        match input with
        | r :: rest => if isRune c r then doScanf f a rest else None
        | [] => None
        end
  end.

Definition Sscanf (str format : string) (a : list kind) : option (list arg) :=
  doScanf format a (runes str).

(** The values of a Go int. *)
Definition intRange (z : Z) : Prop := - 2 ^ 63 <= z < 2 ^ 63.

Definition isDigitByte (c : ascii) : bool := inRange 48 57 (byteZ c).

(** A byte that is a rune of its own and no space. *)
Definition isWordByte (c : ascii) : bool :=
  (byteZ c <? 128) && negb (isSpace (byteZ c)).

(** A byte a format matches literally. *)
Definition isLiteralByte (c : ascii) : bool :=
  negb (Ascii.eqb c "%") && negb (isSpace (byteZ c)).

(** The runes of a text of bytes below 128. *)
Fixpoint asciiRunes (s : string) : list rune :=
  match s with
  | "" => []
  | String c r => (byteZ c, String c "") :: asciiRunes r
  end.

End fmt.

(** ** encoding/base64: the URL-safe alphabet with padding *)

Module base64.

Definition encodeURL : string :=
  "ABCDEFGHIJKLMNOPQRSTUVWXYZabcdefghijklmnopqrstuvwxyz0123456789-_".

Definition padChar : ascii := "="%char.

(** [enc.encode[i]]. *)
Definition encodeChar (i : Z) : ascii :=
  match String.get (Z.to_nat i) encodeURL with
  | Some c => c
  | None => padChar
  end.

Fixpoint indexOf (c : ascii) (alphabet : string) (i : Z) : option Z :=
  match alphabet with
  | "" => None
  | String a r => if Ascii.eqb a c then Some i else indexOf c r (i + 1)
  end.

(** [enc.decodeMap[c]]; [None] stands for the entry 0xff. *)
Definition decodeMap (c : ascii) : option Z := indexOf c encodeURL 0.

(** [URLEncoding.EncodeToString]. *)
Fixpoint EncodeToString (src : string) : string :=
  match src with
  | String a (String b (String c rest)) =>
      let val :=
        Z.lor (Z.lor (Z.shiftl (byteZ a) 16) (Z.shiftl (byteZ b) 8)) (byteZ c) in
      String (encodeChar (Z.land (Z.shiftr val 18) 63))
        (String (encodeChar (Z.land (Z.shiftr val 12) 63))
           (String (encodeChar (Z.land (Z.shiftr val 6) 63))
              (String (encodeChar (Z.land val 63)) (EncodeToString rest))))
  | String a (String b "") =>
      let val := Z.lor (Z.shiftl (byteZ a) 16) (Z.shiftl (byteZ b) 8) in
      String (encodeChar (Z.land (Z.shiftr val 18) 63))
        (String (encodeChar (Z.land (Z.shiftr val 12) 63))
           (String (encodeChar (Z.land (Z.shiftr val 6) 63))
              (String padChar "")))
  | String a "" =>
      let val := Z.shiftl (byteZ a) 16 in
      String (encodeChar (Z.land (Z.shiftr val 18) 63))
        (String (encodeChar (Z.land (Z.shiftr val 12) 63))
           (String padChar (String padChar "")))
  | "" => ""
  end.

Definition isNewline (c : ascii) : bool :=
  Ascii.eqb c (ofByteZ 10) || Ascii.eqb c (ofByteZ 13).

Fixpoint skipNewlines (s : string) : string :=
  match s with
  | String c r => if isNewline c then skipNewlines r else s
  | "" => ""
  end.

(** The three bytes of a quantum: the four 6-bit values of [dbuf] are
    packed into 24 bits, of which the first [dlen - 1] bytes are kept. *)
Definition quantumBytes (dbuf : list Z) (dlen : nat) : string :=
  let val :=
    Z.lor (Z.lor (Z.lor (Z.shiftl (nth 0 dbuf 0) 18) (Z.shiftl (nth 1 dbuf 0) 12))
             (Z.shiftl (nth 2 dbuf 0) 6)) (nth 3 dbuf 0) in
  let b0 := toByte (Z.shiftr val 16) in
  let b1 := toByte (Z.shiftr val 8) in
  let b2 := toByte val in
  match dlen with
  | 4%nat => String b0 (String b1 (String b2 ""))
  | 3%nat => String b0 (String b1 "")
  | 2%nat => String b0 ""
  | _ => ""
  end.

(** [Encoding.Decode] as the loop over [decodeQuantum]: [dbuf] holds the
    values read so far in the current quantum.  Carriage returns and line
    feeds are skipped, padding ends the input, and every
    [CorruptInputError] is [None]. *)
Fixpoint decodeFrom (dbuf : list Z) (src : string) : option string :=
  match src with
  | "" => match dbuf with [] => Some "" | _ => None end
  | String c rest =>
      match decodeMap c with
      | Some out =>
          let dbuf' := (dbuf ++ [out])%list in
          if (List.length dbuf' =? 4)%nat then
            option_map (append (quantumBytes dbuf' 4)) (decodeFrom [] rest)
          else decodeFrom dbuf' rest
      | None =>
          if isNewline c then decodeFrom dbuf rest
          else if negb (Ascii.eqb c padChar) then None
          else
            match List.length dbuf with
            | 2%nat =>
                match skipNewlines rest with
                | "" => None
                | String c' rest' =>
                    if Ascii.eqb c' padChar then
                      match skipNewlines rest' with
                      | "" => Some (quantumBytes dbuf 2)
                      | _ => None
                      end
                    else None
                end
            | 3%nat =>
                match skipNewlines rest with
                | "" => Some (quantumBytes dbuf 3)
                | _ => None
                end
            | _ => None
            end
      end
  end.

Definition DecodeString (s : string) : option string := decodeFrom [] s.

End base64.

(** ** JSON documents *)

(** A decoded JSON document.  Numbers are kept exactly (the engine reads
    them as json.Number and tests integrality on a big.Rat); an object is
    the list of its members, read as a map through [member]. *)
Inductive json :=
| JNull
| JBool (b : bool)
| JNumber (q : Q)
| JString (s : string)
| JArray (l : list json)
| JObject (m : list (string * json)).

Fixpoint member (k : string) (m : list (string * json)) : option json :=
  match m with
  | [] => None
  | (k', v) :: r => if String.eqb k' k then Some v else member k r
  end.

(** The object without the member [k]. *)
Fixpoint removeMember (k : string) (m : list (string * json))
  : list (string * json) :=
  match m with
  | [] => []
  | (k', v) :: r =>
      if String.eqb k' k then removeMember k r else (k', v) :: removeMember k r
  end.

Definition checkJSONInteger (q : Q) : bool := (Qnum q) mod (Zpos (Qden q)) =? 0.

(** ** Regular expressions of the schema patterns *)

Inductive regexp :=
| Void
| Eps
| Class (p : ascii -> bool)
| Cat (r1 r2 : regexp)
| Alt (r1 r2 : regexp)
| Star (r : regexp).

(** The words a regular expression denotes. *)
Inductive matches : regexp -> string -> Prop :=
| MEps : matches Eps ""
| MClass p c : p c = true -> matches (Class p) (String c "")
| MCat r1 r2 s1 s2 :
    matches r1 s1 -> matches r2 s2 -> matches (Cat r1 r2) (s1 ++ s2)
| MAltL r1 r2 s : matches r1 s -> matches (Alt r1 r2) s
| MAltR r1 r2 s : matches r2 s -> matches (Alt r1 r2) s
| MStarNil r : matches (Star r) ""
| MStarApp r s1 s2 :
    matches r s1 -> matches (Star r) s2 -> matches (Star r) (s1 ++ s2).

Fixpoint nullable (r : regexp) : bool :=
  match r with
  | Void => false
  | Eps => true
  | Class _ => false
  | Cat r1 r2 => nullable r1 && nullable r2
  | Alt r1 r2 => nullable r1 || nullable r2
  | Star _ => true
  end.

Fixpoint deriv (c : ascii) (r : regexp) : regexp :=
  match r with
  | Void => Void
  | Eps => Void
  | Class p => if p c then Eps else Void
  | Cat r1 r2 =>
      if nullable r1 then Alt (Cat (deriv c r1) r2) (deriv c r2)
      else Cat (deriv c r1) r2
  | Alt r1 r2 => Alt (deriv c r1) (deriv c r2)
  | Star r1 => Cat (deriv c r1) (Star r1)
  end.

Fixpoint matchb (r : regexp) (s : string) : bool :=
  match s with
  | "" => nullable r
  | String c s' => matchb (deriv c r) s'
  end.

Fixpoint lit (s : string) : regexp :=
  match s with
  | "" => Eps
  | String c r => Cat (Class (Ascii.eqb c)) (lit r)
  end.

Fixpoint rep (n : nat) (r : regexp) : regexp :=
  match n with
  | O => Eps
  | S k => Cat r (rep k r)
  end.

Definition plus (r : regexp) : regexp := Cat r (Star r).
Definition opt (r : regexp) : regexp := Alt r Eps.
Definition anyByte : regexp := Class (fun _ => true).

(** A compiled pattern: its body and whether it opens with [^] and ends
    with [$].  [MatchString] searches, so an end without its anchor may
    fall anywhere in the subject. *)
Record pattern := { bol : bool; body : regexp; eol : bool }.

Definition MatchString (p : pattern) (s : string) : bool :=
  matchb (Cat (if bol p then Eps else Star anyByte)
            (Cat (body p) (if eol p then Eps else Star anyByte))) s.

Definition isDigit (c : ascii) : bool := fmt.inRange 48 57 (byteZ c).
Definition isHexDigit (c : ascii) : bool :=
  isDigit c || fmt.inRange 97 102 (byteZ c) || fmt.inRange 65 70 (byteZ c).

(** Pattern of /address: ^0x[0-9a-fA-F]{40}$ *)
Definition addressPattern : pattern :=
  {| bol := true; body := Cat (lit "0x") (rep 40 (Class isHexDigit)); eol := true |}.

(** Pattern of the string branch of /wholeNumber: ^\d+$ *)
Definition wholeNumberPattern : pattern :=
  {| bol := true; body := plus (Class isDigit); eol := true |}.

(** Pattern of /hex: ^0x(([0-9a-fA-F][0-9a-fA-F])+)?$ *)
Definition hexPattern : pattern :=
  {| bol := true;
     body := Cat (lit "0x")
               (opt (plus (Cat (Class isHexDigit) (Class isHexDigit))));
     eol := true |}.

(** A pattern whose text is a run of letters and digits, such as a
    hexadecimal address: the text itself, with no anchor. *)
Definition literalPattern (text : string) : pattern :=
  {| bol := false; body := lit text; eol := false |}.

(** ** The JSON-Schema engine (gojsonschema) *)

Inductive jsonType :=
| TypeArray | TypeBoolean | TypeInteger | TypeNumber | TypeNull | TypeObject
| TypeString.

Definition jsonType_eqb (a b : jsonType) : bool :=
  match a, b with
  | TypeArray, TypeArray | TypeBoolean, TypeBoolean | TypeInteger, TypeInteger
  | TypeNumber, TypeNumber | TypeNull, TypeNull | TypeObject, TypeObject
  | TypeString, TypeString => true
  | _, _ => false
  end.

(** A schema document, for the keywords the schemas of this package are
    written with.  [extra] holds any further keyword that constrains the
    value itself (enum, const, minLength, ...), by name and argument. *)
Inductive subSchema := SubSchema {
  id : option string;
  ref : option string;
  types : list jsonType;
  pat : option pattern;
  properties : list (string * subSchema);
  required : list string;
  anyOf : list subSchema;
  oneOf : list subSchema;
  allOf : list subSchema;
  extra : list (string * json)
}.

Definition emptySchema : subSchema :=
  {| id := None; ref := None; types := []; pat := None; properties := [];
     required := []; anyOf := []; oneOf := []; allOf := []; extra := [] |}.

Definition refTo (name : string) : subSchema :=
  {| id := None; ref := Some name; types := []; pat := None; properties := [];
     required := []; anyOf := []; oneOf := []; allOf := []; extra := [] |}.

Definition stringMatching (p : pattern) : subSchema :=
  {| id := None; ref := None; types := [TypeString]; pat := Some p;
     properties := []; required := []; anyOf := []; oneOf := []; allOf := [];
     extra := [] |}.

Definition withId (name : string) (s : subSchema) : subSchema :=
  {| id := Some name; ref := ref s; types := types s; pat := pat s;
     properties := properties s; required := required s; anyOf := anyOf s;
     oneOf := oneOf s; allOf := allOf s; extra := extra s |}.

Inductive ResultError :=
| RequiredError (context : list string) (property : string)
| InvalidTypeError (context : list string)
| DoesNotMatchPatternError (context : list string)
| NumberAnyOfError (context : list string)
| NumberOneOfError (context : list string)
| NumberAllOfError (context : list string)
| KeywordError (context : list string) (keyword : string).

Record Result := { errors : list ResultError; score : Z }.

Definition Valid (r : Result) : bool :=
  match errors r with [] => true | _ => false end.

Definition emptyResult : Result := {| errors := []; score := 0 |}.

(** The result of a value with no error against a schema with no
    alternative. *)
Definition pass : Result := {| errors := []; score := 1 |}.

(** [Result.addInternalError]: the error is appended and costs two points. *)
Definition addError (e : ResultError) (r : Result) : Result :=
  {| errors := (errors r ++ [e])%list; score := score r - 2 |}.

Definition mergeErrors (r other : Result) : Result :=
  {| errors := (errors r ++ errors other)%list; score := score r + score other |}.

Definition incrementScore (r : Result) : Result :=
  {| errors := errors r; score := score r + 1 |}.

Definition schemaPool : Type := list (string * subSchema).

Fixpoint poolGet (name : string) (p : schemaPool) : option subSchema :=
  match p with
  | [] => None
  | (n, s) :: r => if String.eqb n name then Some s else poolGet name r
  end.

(** ** Errors and outcomes *)

(** Error values: the package's own [WrongTopicVersionError], the values
    of [fmt.Errorf] (kept as format and operand), and the errors the
    libraries return. *)
Inductive error :=
| WrongTopicVersionError (expectedVersion actualVersion : Z)
| Errorf (format : string) (operand : string)
| LibraryError (msg : string).

(** What a call comes to: a value, a returned error, or a run-time panic
    (a nil pointer dereference, or the stack limit being hit). *)
Inductive outcome (A : Type) :=
| Ok (a : A)
| Err (e : error)
| Panic.

Arguments Ok {A} a.
Arguments Err {A} e.
Arguments Panic {A}.

Definition bind {A B : Type} (x : outcome A) (k : A -> outcome B) : outcome B :=
  match x with
  | Ok a => k a
  | Err e => Err e
  | Panic => Panic
  end.

Notation "'do' x <- c ;; k" := (bind c (fun x => k))
  (at level 10, x name, c at level 100, k at level 200).

(** [WrongTopicVersionError.Error]. *)
Definition WrongTopicVersionError_Error (expectedVersion actualVersion : Z) : string :=
  fmt.Sprintf "wrong topic version: expected %d but got %d"
    [fmt.AInt expectedVersion; fmt.AInt actualVersion].

(** A 20-byte account address (common.Address of go-ethereum). *)
Definition Address : Type := string.

Record ContractAddresses := { Exchange : Address }.

(** ** The collaborators *)

(** What the package calls and this development does not define:
    - [GetContractAddressesForChainID] is the address table of the
      package ethereum of this repository, with or without an entry for a
      chain;
    - [Keccak256] is the hash behind the checksummed form of an address;
    - [Unmarshal] and [Marshal] are canonicaljson's: [Unmarshal data v]
      decodes into the interface value [v] and returns what it holds
      afterwards, [emptyStruct] is the value [struct{}{}];
    - [loadSchema] and [loadDocument] are the engine's reading of a JSON
      text as a schema and as a document to validate;
    - [keywordHolds] decides the keywords kept in [extra];
    - [maxDepth] is the number of nested calls the Go stack allows. *)
Class Collaborators := {
  GetContractAddressesForChainID : Z -> error + ContractAddresses;
  Keccak256 : string -> string;
  GoValue : Type;
  emptyStruct : GoValue;
  Unmarshal : string -> GoValue -> GoValue * option error;
  Marshal : GoValue -> string * option error;
  loadSchema : string -> error + subSchema;
  loadDocument : string -> error + json;
  keywordHolds : string -> json -> json -> bool;
  maxDepth : nat
}.

(** ** Validation *)

Definition hasType (t : jsonType) (s : subSchema) : bool :=
  existsb (jsonType_eqb t) (types s).

Definition isTyped (s : subSchema) : bool :=
  match types s with [] => false | _ => true end.

Definition validType (s : subSchema) (node : json) : bool :=
  match node with
  | JNull => hasType TypeNull s
  | JBool _ => hasType TypeBoolean s
  | JNumber q => hasType TypeNumber s || (checkJSONInteger q && hasType TypeInteger s)
  | JString _ => hasType TypeString s
  | JArray _ => hasType TypeArray s
  | JObject _ => hasType TypeObject s
  end.

Definition better (res : Result) (best : option Result) : bool :=
  match best with
  | None => true
  | Some b => score res >? score b
  end.

Section Validate.

Context {C : Collaborators}.

(** The loops of [validateSchema] over the alternatives of anyOf, oneOf
    and allOf; [sub] validates the current node against one alternative
    into a fresh result. *)
Fixpoint anyOfLoop (sub : subSchema -> option Result) (l : list subSchema)
  (validated : bool) (best : option Result) : option (bool * option Result) :=
  match l with
  | [] => Some (validated, best)
  | x :: r =>
      if validated then anyOfLoop sub r validated best
      else
        match sub x with
        | None => None
        | Some res =>
            anyOfLoop sub r (Valid res)
              (if negb (Valid res) && better res best then Some res else best)
        end
  end.

Fixpoint oneOfLoop (sub : subSchema -> option Result) (l : list subSchema)
  (nbValidated : nat) (best : option Result) : option (nat * option Result) :=
  match l with
  | [] => Some (nbValidated, best)
  | x :: r =>
      match sub x with
      | None => None
      | Some res =>
          if Valid res then oneOfLoop sub r (S nbValidated) best
          else if (nbValidated =? 0)%nat && better res best
               then oneOfLoop sub r nbValidated (Some res)
               else oneOfLoop sub r nbValidated best
      end
  end.

Fixpoint allOfLoop (sub : subSchema -> option Result) (l : list subSchema)
  (nbValidated : nat) (result : Result) : option (nat * Result) :=
  match l with
  | [] => Some (nbValidated, result)
  | x :: r =>
      match sub x with
      | None => None
      | Some res =>
          allOfLoop sub r (if Valid res then S nbValidated else nbValidated)
            (mergeErrors result res)
      end
  end.

Definition mergeBest (result : Result) (best : option Result) : Result :=
  match best with
  | Some b => mergeErrors result b
  | None => result
  end.

Definition validateSchema (sub : subSchema -> option Result) (s : subSchema)
  (ctx : list string) (result : Result) : option Result :=
  match
    (match anyOf s with
     | [] => Some result
     | l =>
         match anyOfLoop sub l false None with
         | None => None
         | Some (true, _) => Some result
         | Some (false, best) =>
             Some (mergeBest (addError (NumberAnyOfError ctx) result) best)
         end
     end)
  with
  | None => None
  | Some result1 =>
      match
        (match oneOf s with
         | [] => Some result1
         | l =>
             match oneOfLoop sub l 0 None with
             | None => None
             | Some (nb, best) =>
                 if (nb =? 1)%nat then Some result1
                 else
                   let r := addError (NumberOneOfError ctx) result1 in
                   Some (if (nb =? 0)%nat then mergeBest r best else r)
             end
         end)
      with
      | None => None
      | Some result2 =>
          match allOf s with
          | [] => Some result2
          | l =>
              match allOfLoop sub l 0 result2 with
              | None => None
              | Some (nb, r) =>
                  Some (if (nb =? List.length l)%nat then r
                        else addError (NumberAllOfError ctx) r)
              end
          end
      end
  end.

(** The keywords on the value itself other than the pattern. *)
Fixpoint validateCommon (kws : list (string * json)) (node : json)
  (ctx : list string) (result : Result) : Result :=
  match kws with
  | [] => result
  | (name, argument) :: r =>
      validateCommon r node ctx
        (if keywordHolds name argument node then result
         else addError (KeywordError ctx name) result)
  end.

Definition validateString (s : subSchema) (value : string) (ctx : list string)
  (result : Result) : Result :=
  match pat s with
  | Some p =>
      if MatchString p value then result
      else addError (DoesNotMatchPatternError ctx) result
  | None => result
  end.

(** The required members, as [validateObject] checks them. *)
Fixpoint validateRequired (req : list string) (value : list (string * json))
  (ctx : list string) (result : Result) : Result :=
  match req with
  | [] => result
  | p :: r =>
      validateRequired r value ctx
        (match member p value with
         | Some _ => incrementScore result
         | None => addError (RequiredError ctx p) result
         end)
  end.

Fixpoint propertiesLoop (sub : subSchema -> json -> list string -> option Result)
  (children : list (string * subSchema)) (value : list (string * json))
  (ctx : list string) (result : Result) : option Result :=
  match children with
  | [] => Some result
  | (property, pSchema) :: r =>
      match member property value with
      | Some nextNode =>
          match sub pSchema nextNode (ctx ++ [property])%list with
          | None => None
          | Some res => propertiesLoop sub r value ctx (mergeErrors result res)
          end
      | None => propertiesLoop sub r value ctx result
      end
  end.

(** [validateRecursive]: the result of validating [node] against [s],
    with references looked up in [pool].  [depth] bounds the nesting of
    calls; [None] is the stack running out. *)
Fixpoint validateRecursive (depth : nat) (pool : schemaPool) (s : subSchema)
  (node : json) (ctx : list string) {struct depth} : option Result :=
  match depth with
  | O => None
  | S d =>
      match ref s with
      | Some name =>
          match poolGet name pool with
          | Some target => validateRecursive d pool target node ctx
          | None => None
          end
      | None =>
          if isTyped s && negb (validType s node) then
            Some (addError (InvalidTypeError ctx) emptyResult)
          else
            match
              validateSchema (fun alt => validateRecursive d pool alt node ctx)
                s ctx emptyResult
            with
            | None => None
            | Some r1 =>
                let r2 := validateCommon (extra s) node ctx r1 in
                match node with
                | JString value =>
                    Some (incrementScore (validateString s value ctx r2))
                | JObject value =>
                    match
                      propertiesLoop
                        (fun child n c => validateRecursive d pool child n c)
                        (properties s) value ctx
                        (validateRequired (required s) value ctx r2)
                    with
                    | None => None
                    | Some r3 => Some (incrementScore r3)
                    end
                | _ => Some (incrementScore r2)
                end
            end
      end
  end.

(** ** Loaders and compilation *)

(** A JSON loader: a text given at run time, or a literal of the source
    held as the schema document it denotes. *)
Inductive JSONLoader :=
| NewStringLoader (text : string)
| Literal (document : subSchema).

Definition LoadJSON (l : JSONLoader) : error + subSchema :=
  match l with
  | NewStringLoader text => loadSchema text
  | Literal document => inr document
  end.

(** A loader's registry of named schema documents. *)
Record SchemaLoader := { pool : schemaPool }.

Definition NewSchemaLoader : SchemaLoader := {| pool := [] |}.

(** A compiled schema: the root and the documents its references name. *)
Record Schema := { documents : schemaPool; rootSchema : subSchema }.

Definition alreadyExists (name : string) : error :=
  Errorf "Reference already exists: %q" name.

(** Registration of a document under its own id, if it has one. *)
Definition registerId (doc : subSchema) (p : schemaPool) : error + schemaPool :=
  match id doc with
  | None => inr p
  | Some name =>
      match poolGet name p with
      | Some _ => inl (alreadyExists name)
      | None => inr (p ++ [(name, doc)])%list
      end
  end.

(** [SchemaLoader.AddSchema]: the loader afterwards and the error
    returned, if any.  Names are taken as written; the engine resolves a
    relative one against its base first. *)
Definition AddSchema (sl : SchemaLoader) (url : string) (loader : JSONLoader)
  : SchemaLoader * option error :=
  match LoadJSON loader with
  | inl e => (sl, Some e)
  | inr doc =>
      match poolGet url (pool sl) with
      | Some _ => (sl, Some (alreadyExists url))
      | None =>
          let p := (pool sl ++ [(url, doc)])%list in
          match registerId doc p with
          | inl e => ({| pool := p |}, Some e)
          | inr p' => ({| pool := p' |}, None)
          end
      end
  end.

Fixpoint AddSchemas (sl : SchemaLoader) (loaders : list JSONLoader)
  : SchemaLoader * option error :=
  match loaders with
  | [] => (sl, None)
  | loader :: r =>
      match LoadJSON loader with
      | inl e => (sl, Some e)
      | inr doc =>
          match registerId doc (pool sl) with
          | inl e => (sl, Some e)
          | inr p => AddSchemas {| pool := p |} r
          end
      end
  end.

(** Every reference of a document names a document of the pool. *)
Fixpoint refsResolve (p : schemaPool) (s : subSchema) {struct s} : bool :=
  match s with
  | SubSchema _ r _ _ props _ any one all _ =>
      match r with
      | Some name => match poolGet name p with Some _ => true | None => false end
      | None =>
          forallb (fun '(_, child) => refsResolve p child) props
          && forallb (refsResolve p) any
          && forallb (refsResolve p) one
          && forallb (refsResolve p) all
      end
  end.

Definition danglingReference : error := LibraryError "Could not resolve reference".

(** [SchemaLoader.Compile] on a loader that exists. *)
Definition compileWith (sl : SchemaLoader) (rootSchema : JSONLoader)
  : error + Schema :=
  match LoadJSON rootSchema with
  | inl e => inl e
  | inr root =>
      let p := match id root with
               | Some name => ((name, root) :: pool sl)
               | None => pool sl
               end in
      if refsResolve p root && forallb (fun '(_, doc) => refsResolve p doc) p
      then inr {| documents := p; rootSchema := root |}
      else inl danglingReference
  end.

(** [Schema.Validate] on a decoded document. *)
Definition validateDocument (s : Schema) (root : json) : outcome Result :=
  match validateRecursive maxDepth (documents s) (rootSchema s) root ["(root)"] with
  | Some r => Ok r
  | None => Panic
  end.

Definition Validate (s : Schema) (bytes : string) : outcome Result :=
  match loadDocument bytes with
  | inl e => Err e
  | inr root => validateDocument s root
  end.

End Validate.

(** ** go-ethereum: the checksummed text of an address *)

Definition hexDigit (n : Z) : ascii :=
  match String.get (Z.to_nat n) "0123456789abcdef" with
  | Some c => c
  | None => "0"%char
  end.

Fixpoint hexOf (bytes : string) : string :=
  match bytes with
  | "" => ""
  | String b r =>
      String (hexDigit (Z.shiftr (byteZ b) 4))
        (String (hexDigit (Z.land (byteZ b) 15)) (hexOf r))
  end.

Definition byteAt (i : nat) (s : string) : Z :=
  match String.get i s with
  | Some c => byteZ c
  | None => 0
  end.

(** The loop of [checksumHex]: the digit at position [i] is a letter put
    in upper case when the matching nibble of the hash is above 7. *)
Fixpoint checksumFrom (i : nat) (digits hash : string) : string :=
  match digits with
  | "" => ""
  | String c r =>
      let hashByte := byteAt (i / 2) hash in
      let nibble :=
        if Nat.even i then Z.shiftr hashByte 4 else Z.land hashByte 15 in
      String (if (byteZ c >? 57) && (nibble >? 7) then ofByteZ (byteZ c - 32) else c)
        (checksumFrom (S i) r hash)
  end.

(** [strings.ToLower] on text without bytes above 127. *)
Definition lowerByte (c : ascii) : ascii :=
  if fmt.inRange 65 90 (byteZ c) then ofByteZ (byteZ c + 32) else c.

Fixpoint ToLower (s : string) : string :=
  match s with
  | "" => ""
  | String c r => String (lowerByte c) (ToLower r)
  end.

(** ** The package orderfilter *)

Section Orderfilter.

Context {C : Collaborators}.

(** [Address.Hex]. *)
Definition Hex (a : Address) : string :=
  "0x" ++ checksumFrom 0 (hexOf a) (Keccak256 (hexOf a)).

Definition pubsubTopicVersion : Z := 3.
Definition topicVersionFormat : string := "/0x-orders/version/%d%s".
Definition topicChainIDAndSchemaFormat : string := "/chain/%d/schema/%s".
Definition fullTopicFormat : string := "/0x-orders/version/%d/chain/%d/schema/%s".

(** Built-in schemas.  Members of properties are listed in the order of
    the source text. *)
Definition addressDocument : subSchema :=
  withId "/address" (stringMatching addressPattern).

Definition addressSchemaLoader : JSONLoader := Literal addressDocument.

Definition integerSchema : subSchema :=
  {| id := None; ref := None; types := [TypeInteger]; pat := None;
     properties := []; required := []; anyOf := []; oneOf := []; allOf := [];
     extra := [] |}.

Definition wholeNumberDocument : subSchema :=
  {| id := Some "/wholeNumber"; ref := None; types := []; pat := None;
     properties := []; required := [];
     anyOf := [ stringMatching wholeNumberPattern; integerSchema ];
     oneOf := []; allOf := []; extra := [] |}.

Definition wholeNumberSchemaLoader : JSONLoader := Literal wholeNumberDocument.

Definition hexDocument : subSchema := withId "/hex" (stringMatching hexPattern).

Definition hexSchemaLoader : JSONLoader := Literal hexDocument.

Definition orderRequired : list string :=
  [ "makerAddress"; "takerAddress"; "makerFee"; "takerFee"; "senderAddress";
    "makerAssetAmount"; "takerAssetAmount"; "makerAssetData"; "takerAssetData";
    "salt"; "exchangeAddress"; "feeRecipientAddress"; "expirationTimeSeconds" ].

Definition orderProperties : list (string * subSchema) :=
  [ ("makerAddress", refTo "/address");
    ("takerAddress", refTo "/address");
    ("makerFee", refTo "/wholeNumber");
    ("takerFee", refTo "/wholeNumber");
    ("senderAddress", refTo "/address");
    ("makerAssetAmount", refTo "/wholeNumber");
    ("takerAssetAmount", refTo "/wholeNumber");
    ("makerAssetData", refTo "/hex");
    ("takerAssetData", refTo "/hex");
    ("salt", refTo "/wholeNumber");
    ("exchangeAddress", refTo "/exchangeAddress");
    ("feeRecipientAddress", refTo "/address");
    ("expirationTimeSeconds", refTo "/wholeNumber") ].

Definition orderDocument : subSchema :=
  {| id := Some "/order"; ref := None; types := [TypeObject]; pat := None;
     properties := orderProperties;
     required := orderRequired;
     anyOf := []; oneOf := []; allOf := []; extra := [] |}.

Definition orderSchemaLoader : JSONLoader := Literal orderDocument.

Definition signatureSchema : subSchema :=
  {| id := None; ref := None; types := []; pat := None;
     properties := [ ("signature", refTo "/hex") ];
     required := [ "signature" ];
     anyOf := []; oneOf := []; allOf := []; extra := [] |}.

Definition signedOrderDocument : subSchema :=
  {| id := Some "/signedOrder"; ref := None; types := []; pat := None;
     properties := []; required := []; anyOf := []; oneOf := [];
     allOf := [ refTo "/order"; signatureSchema ];
     extra := [] |}.

Definition signedOrderSchemaLoader : JSONLoader := Literal signedOrderDocument.

(** Root schemas. *)
Definition rootOrderDocument : subSchema :=
  {| id := Some "/rootOrder"; ref := None; types := []; pat := None;
     properties := []; required := []; anyOf := []; oneOf := [];
     allOf := [ refTo "/customOrder"; refTo "/signedOrder" ];
     extra := [] |}.

Definition rootOrderSchemaLoader : JSONLoader := Literal rootOrderDocument.

Definition rootMessageDocument : subSchema :=
  {| id := Some "/rootMessage"; ref := None; types := []; pat := None;
     properties :=
       [ ("MessageType",
          {| id := None; ref := None; types := [TypeString]; pat := None;
             properties := []; required := []; anyOf := []; oneOf := [];
             allOf := []; extra := [] |});
         ("Order", refTo "/rootOrder") ];
     required := [ "MessageType"; "Order" ];
     anyOf := []; oneOf := []; allOf := []; extra := [] |}.

Definition rootMessageSchemaLoader : JSONLoader := Literal rootMessageDocument.

(** Default schema for /customOrder. *)
Definition DefaultCustomOrderSchema : string := "{}".

Definition builtInSchemas : list JSONLoader :=
  [ addressSchemaLoader; wholeNumberSchemaLoader; hexSchemaLoader;
    orderSchemaLoader; signedOrderSchemaLoader ].

Record Filter := {
  topic : string;
  version : Z;
  chainID : Z;
  rawCustomOrderSchema : string;
  orderSchema : Schema;
  messageSchema : Schema
}.

(** The document of the text that [loadExchangeAddress] formats: a oneOf
    of two string schemas whose patterns are the checksummed text of the
    address and its lower-case form ([%q] of such a text is the text
    between quotes). *)
Definition exchangeAddressSchema (exchange : Address) : subSchema :=
  {| id := None; ref := None; types := []; pat := None; properties := [];
     required := []; anyOf := [];
     oneOf := [ stringMatching (literalPattern (Hex exchange));
                stringMatching (literalPattern (ToLower (Hex exchange))) ];
     allOf := []; extra := [] |}.

Definition loadExchangeAddress (loader : SchemaLoader) (chainID : Z)
  : SchemaLoader * option error :=
  match GetContractAddressesForChainID chainID with
  | inl err => (loader, Some err)
  | inr contractAddresses =>
      AddSchema loader "/exchangeAddress"
        (Literal (exchangeAddressSchema (Exchange contractAddresses)))
  end.

(** [newLoader] returns a pointer and an error: a loader and nil, or nil
    and the error. *)
Definition newLoader (chainID : Z) (customOrderSchema : string)
  : option SchemaLoader * option error :=
  match loadExchangeAddress NewSchemaLoader chainID with
  | (_, Some err) => (None, Some err)
  | (loader1, None) =>
      match AddSchemas loader1 builtInSchemas with
      | (_, Some err) => (None, Some err)
      | (loader2, None) =>
          match AddSchema loader2 "/customOrder" (NewStringLoader customOrderSchema) with
          | (_, Some err) => (None, Some err)
          | (loader3, None) => (Some loader3, None)
          end
      end
  end.

(** Method calls through a loader pointer: the methods read the loader's
    pool, so a nil pointer panics. *)
Definition Compile (sl : option SchemaLoader) (rootSchema : JSONLoader)
  : outcome Schema :=
  match sl with
  | None => Panic
  | Some l =>
      match compileWith l rootSchema with
      | inl e => Err e
      | inr s => Ok s
      end
  end.

Definition AddSchemasTo (sl : option SchemaLoader) (loaders : list JSONLoader)
  : outcome SchemaLoader :=
  match sl with
  | None => Panic
  | Some l =>
      match AddSchemas l loaders with
      | (_, Some e) => Err e
      | (l', None) => Ok l'
      end
  end.

(** [New].  The error of each [newLoader] call is overwritten by the next
    assignment to [err] before it is read. *)
Definition New (chainID : Z) (customOrderSchema : string) : outcome Filter :=
  let '(orderLoader, _) := newLoader chainID customOrderSchema in
  do rootOrderSchema <- Compile orderLoader rootOrderSchemaLoader ;;
  let '(messageLoader, _) := newLoader chainID customOrderSchema in
  do messageLoader' <- AddSchemasTo messageLoader [rootOrderSchemaLoader] ;;
  do rootMessageSchema <- Compile (Some messageLoader') rootMessageSchemaLoader ;;
  Ok {| topic := "";
        version := 0;
        chainID := chainID;
        rawCustomOrderSchema := customOrderSchema;
        orderSchema := rootOrderSchema;
        messageSchema := rootMessageSchema |}.

Definition NewFromTopic (topic : string) : outcome Filter :=
  match fmt.Sscanf topic topicVersionFormat [fmt.KInt; fmt.KStr] with
  | Some [fmt.AInt version; fmt.AStr chainIDAndSchema] =>
      if negb (version =? pubsubTopicVersion) then
        Err (WrongTopicVersionError pubsubTopicVersion version)
      else
        match
          fmt.Sscanf chainIDAndSchema topicChainIDAndSchemaFormat
            [fmt.KInt; fmt.KStr]
        with
        | Some [fmt.AInt chainID; fmt.AStr base64EncodedSchema] =>
            match base64.DecodeString base64EncodedSchema with
            | Some customOrderSchema => New chainID customOrderSchema
            | None =>
                Err (Errorf "could not base64-decode order schema: %q"
                       base64EncodedSchema)
            end
        | _ =>
            Err (Errorf "could not parse chainID and schema from topic: %q" topic)
        end
  | _ => Err (Errorf "could not parse topic version for topic: %q" topic)
  end.

(** The bytes [generateTopic] encodes: the canonical serialization of
    what the holder contains after the attempt to decode the raw schema,
    both errors dropped. *)
Definition canonicalOrderSchemaJSON (raw : string) : string :=
  let holder := emptyStruct in
  let '(holder', _) := Unmarshal raw holder in
  let '(canonical, _) := Marshal holder' in
  canonical.

Definition generateTopic (v : Filter) : string :=
  let base64EncodedSchema :=
    base64.EncodeToString (canonicalOrderSchemaJSON (rawCustomOrderSchema v)) in
  fmt.Sprintf fullTopicFormat
    [fmt.AInt pubsubTopicVersion; fmt.AInt (chainID v); fmt.AStr base64EncodedSchema].

Definition setTopic (f : Filter) (t : string) : Filter :=
  {| topic := t;
     version := version f;
     chainID := chainID f;
     rawCustomOrderSchema := rawCustomOrderSchema f;
     orderSchema := orderSchema f;
     messageSchema := messageSchema f |}.

(** [Topic] on the filter [f]: the string returned and the filter
    afterwards. *)
Definition Topic (f : Filter) : string * Filter :=
  let f' := if String.eqb (topic f) "" then setTopic f (generateTopic f) else f in
  (topic f', f').

Definition MatchMessageJSON (f : Filter) (messageJSON : string) : outcome bool :=
  do result <- Validate (messageSchema f) messageJSON ;;
  Ok (Valid result).

Definition ValidateOrderJSON (f : Filter) (orderJSON : string) : outcome Result :=
  Validate (orderSchema f) orderJSON.

(** [n] calls of [Topic] in a row: the strings returned, first call
    first, and the filter after the last call. *)
Fixpoint TopicCalls (n : nat) (f : Filter) : list string * Filter :=
  match n with
  | O => ([], f)
  | S k =>
      let '(t, f') := Topic f in
      let '(ts, f'') := TopicCalls k f' in
      (t :: ts, f'')
  end.

(** ** The shape of a signed order *)

(** 0x and forty hexadecimal digits. *)
Definition isAddressText (s : string) : bool :=
  match s with
  | String a (String b h) =>
      Ascii.eqb a "0" && Ascii.eqb b "x" && (String.length h =? 40)%nat
      && allBytes isHexDigit h
  | _ => false
  end.

Fixpoint isHexPairs (h : string) : bool :=
  match h with
  | "" => true
  | String a (String b r) => isHexDigit a && isHexDigit b && isHexPairs r
  | _ => false
  end.

(** 0x and an even number of hexadecimal digits. *)
Definition isHexText (s : string) : bool :=
  match s with
  | String a (String b h) => Ascii.eqb a "0" && Ascii.eqb b "x" && isHexPairs h
  | _ => false
  end.

(** A text of decimal digits, or an integer. *)
Definition isWholeNumber (v : json) : bool :=
  match v with
  | JString "" => false
  | JString s => allBytes isDigit s
  | JNumber q => checkJSONInteger q
  | _ => false
  end.

Definition isText (p : string -> bool) (v : json) : bool :=
  match v with
  | JString s => p s
  | _ => false
  end.

(** The exchange address of the chain, written in its checksummed form
    or in its lower-case form. *)
Definition isExchangeText (exchange : Address) (s : string) : bool :=
  String.eqb s (Hex exchange) || String.eqb s (ToLower (Hex exchange)).

(** The verdict of the exchange schema of the chain on a text: exactly
    one of its two patterns occurs in the text. *)
Definition matchesExchange (exchange : Address) (s : string) : bool :=
  xorb (MatchString (literalPattern (Hex exchange)) s)
       (MatchString (literalPattern (ToLower (Hex exchange))) s).

Definition memberIs (p : json -> bool) (m : list (string * json)) (k : string)
  : bool :=
  match member k m with
  | Some v => p v
  | None => false
  end.

Definition addressFields : list string :=
  [ "makerAddress"; "takerAddress"; "senderAddress"; "feeRecipientAddress" ].

Definition wholeNumberFields : list string :=
  [ "makerFee"; "takerFee"; "makerAssetAmount"; "takerAssetAmount"; "salt";
    "expirationTimeSeconds" ].

Definition hexFields : list string :=
  [ "makerAssetData"; "takerAssetData"; "signature" ].

(** The fields a signed order must have. *)
Definition signedOrderRequired : list string := (orderRequired ++ ["signature"])%list.

(** An object with every required field, each of the right shape: the
    addresses, the amounts, the hexadecimal data, and an exchange address
    that is one of the texts [exchangeText]. *)
Definition orderShape (exchangeText : string -> bool) (m : list (string * json))
  : bool :=
  forallb (memberIs (isText isAddressText) m) addressFields
  && forallb (memberIs isWholeNumber m) wholeNumberFields
  && forallb (memberIs (isText isHexText) m) hexFields
  && memberIs (isText exchangeText) m "exchangeAddress".

(** A signed order of the right shape for the chain whose exchange is at
    [exchange]: its exchange address is that address, in either of its
    two written forms. *)
Definition wellShapedOrder (exchange : Address) (m : list (string * json)) : bool :=
  orderShape (isExchangeText exchange) m.

(** The documents of the order schema that [New] compiles, for an exchange
    address and a custom schema. *)
Definition orderDocuments (exchange : Address) (custom : subSchema) : schemaPool :=
  [ ("/rootOrder", rootOrderDocument);
    ("/exchangeAddress", exchangeAddressSchema exchange);
    ("/address", addressDocument);
    ("/wholeNumber", wholeNumberDocument);
    ("/hex", hexDocument);
    ("/order", orderDocument);
    ("/signedOrder", signedOrderDocument);
    ("/customOrder", custom) ].

End Orderfilter.

(** ** Sample collaborators

    A small implementation of each collaborator, on which the statements
    below are run: a reader of JSON texts (objects, arrays, strings
    without escapes, integers, true, false, null), a canonical printer
    that sorts the members of an object by key, a table of three chains
    and a stand-in for the hash. *)

Module sample.

Definition quote : ascii := ofByteZ 34.

(** The JSON text of a string. *)
Definition quoted (s : string) : string := String quote (s ++ String quote "").

Definition isWS (c : ascii) : bool :=
  let b := byteZ c in (b =? 32) || (b =? 9) || (b =? 10) || (b =? 13).

Fixpoint skipWS (s : string) : string :=
  match s with
  | String c r => if isWS c then skipWS r else s
  | "" => ""
  end.

(** The text up to the closing quote. *)
Fixpoint readString (s : string) : option (string * string) :=
  match s with
  | "" => None
  | String c r =>
      if Ascii.eqb c quote then Some ("", r)
      else if (byteZ c <? 32) || (byteZ c =? 92) then None
      else match readString r with
           | Some (t, r') => Some (String c t, r')
           | None => None
           end
  end.

Fixpoint readDigits (s : string) : string * string :=
  match s with
  | String c r =>
      if isDigit c then let '(d, r') := readDigits r in (String c d, r')
      else ("", s)
  | "" => ("", "")
  end.

Definition readNumber (s : string) : option (json * string) :=
  let '(neg, s') :=
    match s with
    | String c r => if Ascii.eqb c "-" then (true, r) else (false, s)
    | "" => (false, s)
    end in
  let '(d, r) := readDigits s' in
  match d, fmt.parseDigits 0 d with
  | String _ _, Some n => Some (JNumber (inject_Z (if neg then - n else n)), r)
  | _, _ => None
  end.

Definition readWord (w : string) (v : json) (s : string) : option (json * string) :=
  if String.eqb (substring 0 (String.length w) s) w
  then Some (v, substring (String.length w) (String.length s) s)
  else None.

Fixpoint readValue (fuel : nat) (s : string) : option (json * string) :=
  match fuel with
  | O => None
  | S k =>
      match skipWS s with
      | "" => None
      | String c r =>
          if Ascii.eqb c "{" then
            match skipWS r with
            | String c' r' =>
                if Ascii.eqb c' "}" then Some (JObject [], r')
                else match readMembers k (String c' r') with
                     | Some (m, r'') => Some (JObject m, r'')
                     | None => None
                     end
            | "" => None
            end
          else if Ascii.eqb c "[" then
            match skipWS r with
            | String c' r' =>
                if Ascii.eqb c' "]" then Some (JArray [], r')
                else match readElements k (String c' r') with
                     | Some (l, r'') => Some (JArray l, r'')
                     | None => None
                     end
            | "" => None
            end
          else if Ascii.eqb c quote then
            match readString r with
            | Some (t, r') => Some (JString t, r')
            | None => None
            end
          else if Ascii.eqb c "t" then readWord "true" (JBool true) (String c r)
          else if Ascii.eqb c "f" then readWord "false" (JBool false) (String c r)
          else if Ascii.eqb c "n" then readWord "null" JNull (String c r)
          else readNumber (String c r)
      end
  end
with readMembers (fuel : nat) (s : string) : option (list (string * json) * string) :=
  match fuel with
  | O => None
  | S k =>
      match skipWS s with
      | String c r =>
          if Ascii.eqb c quote then
            match readString r with
            | Some (key, r1) =>
                match skipWS r1 with
                | String c1 r2 =>
                    if Ascii.eqb c1 ":" then
                      match readValue k r2 with
                      | Some (v, r3) =>
                          match skipWS r3 with
                          | String c3 r4 =>
                              if Ascii.eqb c3 "}" then Some ([(key, v)], r4)
                              else if Ascii.eqb c3 "," then
                                match readMembers k r4 with
                                | Some (m, r5) => Some ((key, v) :: m, r5)
                                | None => None
                                end
                              else None
                          | "" => None
                          end
                      | None => None
                      end
                    else None
                | "" => None
                end
            | None => None
            end
          else None
      | "" => None
      end
  end
with readElements (fuel : nat) (s : string) : option (list json * string) :=
  match fuel with
  | O => None
  | S k =>
      match readValue k s with
      | Some (v, r) =>
          match skipWS r with
          | String c r' =>
              if Ascii.eqb c "]" then Some ([v], r')
              else if Ascii.eqb c "," then
                match readElements k r' with
                | Some (l, r'') => Some (v :: l, r'')
                | None => None
                end
              else None
          | "" => None
          end
      | None => None
      end
  end.

(** A whole text as one JSON value. *)
Definition read (text : string) : option json :=
  match readValue (S (String.length text)) text with
  | Some (v, r) => match skipWS r with "" => Some v | _ => None end
  | None => None
  end.

(** Members in the order of their keys, a later member replacing an
    earlier one of the same key. *)
Fixpoint insertMember (k : string) (v : json) (m : list (string * json))
  : list (string * json) :=
  match m with
  | [] => [(k, v)]
  | (k', v') :: r =>
      match String.compare k k' with
      | Lt => (k, v) :: m
      | Eq => (k, v) :: r
      | Gt => (k', v') :: insertMember k v r
      end
  end.

Definition sortMembers (m : list (string * json)) : list (string * json) :=
  fold_left (fun acc '(k, v) => insertMember k v acc) m [].

(** The value a text decodes to: an object is a map. *)
Fixpoint normalize (j : json) : json :=
  match j with
  | JObject m => JObject (sortMembers (map (fun '(k, v) => (k, normalize v)) m))
  | JArray l => JArray (map normalize l)
  | _ => j
  end.

Fixpoint print (j : json) : string :=
  match j with
  | JNull => "null"
  | JBool true => "true"
  | JBool false => "false"
  | JNumber q => fmt.fmtInteger (Qnum q)
  | JString s => quoted s
  | JArray l =>
      "[" ++ (fix elements (l : list json) : string :=
                match l with
                | [] => ""
                | [x] => print x
                | x :: r => print x ++ "," ++ elements r
                end) l ++ "]"
  | JObject m =>
      "{" ++ (fix members (m : list (string * json)) : string :=
                match m with
                | [] => ""
                | [(k, v)] => quoted k ++ ":" ++ print v
                | (k, v) :: r => quoted k ++ ":" ++ print v ++ "," ++ members r
                end) m ++ "}"
  end.

Fixpoint fromHex (s : string) : string :=
  match s with
  | String a (String b r) =>
      let digit c :=
        match fmt.ParseInt (String c "") with
        | Some n => n
        | None => byteZ (lowerByte c) - 87
        end in
      String (ofByteZ (16 * digit a + digit b)) (fromHex r)
  | _ => ""
  end.

Definition syntaxError : error := LibraryError "invalid character".

Definition typeNamed (t : string) : option jsonType :=
  if String.eqb t "array" then Some TypeArray
  else if String.eqb t "boolean" then Some TypeBoolean
  else if String.eqb t "integer" then Some TypeInteger
  else if String.eqb t "number" then Some TypeNumber
  else if String.eqb t "null" then Some TypeNull
  else if String.eqb t "object" then Some TypeObject
  else if String.eqb t "string" then Some TypeString
  else None.

Fixpoint stringsOf (l : list json) : option (list string) :=
  match l with
  | [] => Some []
  | JString s :: r => option_map (cons s) (stringsOf r)
  | _ => None
  end.

Definition setTypes (s : subSchema) (t : list jsonType) : subSchema :=
  {| id := id s; ref := ref s; types := t; pat := pat s;
     properties := properties s; required := required s; anyOf := anyOf s;
     oneOf := oneOf s; allOf := allOf s; extra := extra s |}.

Definition setRequired (s : subSchema) (r : list string) : subSchema :=
  {| id := id s; ref := ref s; types := types s; pat := pat s;
     properties := properties s; required := r; anyOf := anyOf s;
     oneOf := oneOf s; allOf := allOf s; extra := extra s |}.

Definition setProperties (s : subSchema) (p : list (string * subSchema)) : subSchema :=
  {| id := id s; ref := ref s; types := types s; pat := pat s;
     properties := p; required := required s; anyOf := anyOf s;
     oneOf := oneOf s; allOf := allOf s; extra := extra s |}.

(** The schema of a JSON text written with type, required and
    properties only. *)
Fixpoint toSchema (j : json) : option subSchema :=
  match j with
  | JObject m =>
      (fix members (m : list (string * json)) (acc : subSchema)
         : option subSchema :=
         match m with
         | [] => Some acc
         | (k, v) :: r =>
             if String.eqb k "type" then
               match v with
               | JString t =>
                   match typeNamed t with
                   | Some ty => members r (setTypes acc [ty])
                   | None => None
                   end
               | _ => None
               end
             else if String.eqb k "required" then
               match v with
               | JArray l =>
                   match stringsOf l with
                   | Some req => members r (setRequired acc req)
                   | None => None
                   end
               | _ => None
               end
             else if String.eqb k "properties" then
               match v with
               | JObject ps =>
                   match
                     (fix props (ps : list (string * json))
                        : option (list (string * subSchema)) :=
                        match ps with
                        | [] => Some []
                        | (p, pv) :: pr =>
                            match toSchema pv, props pr with
                            | Some s, Some l => Some ((p, s) :: l)
                            | _, _ => None
                            end
                        end) ps
                   with
                   | Some l => members r (setProperties acc l)
                   | None => None
                   end
               | _ => None
               end
             else None
         end) m emptySchema
  | _ => None
  end.

#[export] Instance collaborators : Collaborators := {|
  GetContractAddressesForChainID chainID :=
    if chainID =? 1 then
      inr {| Exchange := fromHex "61935cbdd02287b511119ddb11aeb42f1593b7ef" |}
    else if chainID =? 1337 then
      inr {| Exchange := fromHex "48bacb9266a570d521063ef5dd96e61686dbe788" |}
    else if chainID =? 1111 then
      inr {| Exchange := fromHex "1111111111111111111111111111111111111111" |}
    else inl (LibraryError "invalid chain");
  Keccak256 digits := fromHex "8f3a8f3a8f3a8f3a8f3a8f3a8f3a8f3a8f3a8f3a8f3a8f3a8f3a8f3a8f3a8f3a";
  GoValue := option json;
  emptyStruct := None;
  Unmarshal data v :=
    match read data with
    | Some j => (Some (normalize j), None)
    | None => (v, Some syntaxError)
    end;
  Marshal v :=
    match v with
    | Some j => (print j, None)
    | None => ("{}", None)
    end;
  loadSchema text :=
    match read text with
    | Some j =>
        match toSchema j with
        | Some s => inr s
        | None => inl (LibraryError "keyword outside the sample")
        end
    | None => inl syntaxError
    end;
  loadDocument bytes :=
    match read bytes with
    | Some j => inr (normalize j)
    | None => inl syntaxError
    end;
  keywordHolds _ _ _ := true;
  maxDepth := 1000
|}.

Definition blankSchema : Schema := {| documents := []; rootSchema := emptySchema |}.

(** A filter with the given chain and raw schema and no topic yet. *)
Definition blankFilter (chain : Z) (raw : string) : Filter :=
  {| topic := ""; version := 0; chainID := chain; rawCustomOrderSchema := raw;
     orderSchema := blankSchema; messageSchema := blankSchema |}.

(** The filter [New] returns on the sample collaborators. *)
Definition newFilter (chain : Z) (raw : string) : Filter :=
  match New chain raw with
  | Ok f => f
  | _ => blankFilter chain raw
  end.

(** Two texts of one schema, and a text that is no JSON. *)
Definition schemaText : string :=
  "{" ++ quoted "type" ++ ":" ++ quoted "object" ++ ","
      ++ quoted "required" ++ ":[" ++ quoted "salt" ++ "]}".

Definition schemaTextReordered : string :=
  " { " ++ quoted "required" ++ " : [ " ++ quoted "salt" ++ " ] , "
        ++ quoted "type" ++ " : " ++ quoted "object" ++ " } ".

Definition brokenText : string := "{" ++ quoted "type".

(** The text of an object from the texts of its members. *)
Fixpoint membersText (l : list (string * string)) : string :=
  match l with
  | [] => ""
  | [(k, v)] => quoted k ++ ":" ++ v
  | (k, v) :: r => quoted k ++ ":" ++ v ++ "," ++ membersText r
  end.

Definition objectText (l : list (string * string)) : string :=
  "{" ++ membersText l ++ "}".

(** The members of a signed order, with the given exchange address. *)
Definition orderFields (exchangeAddress : string) : list (string * string) :=
  [ ("makerAddress", quoted "0x6Ecbe1DB9EF729CBe972C83Fb886247691Fb6beb");
    ("takerAddress", quoted "0x0000000000000000000000000000000000000000");
    ("makerFee", quoted "0");
    ("takerFee", "12");
    ("senderAddress", quoted "0x0000000000000000000000000000000000000000");
    ("makerAssetAmount", quoted "1000");
    ("takerAssetAmount", quoted "2000");
    ("makerAssetData", quoted "0xf47261b0");
    ("takerAssetData", quoted "0x");
    ("salt", quoted "1548619145450");
    ("exchangeAddress", quoted exchangeAddress);
    ("feeRecipientAddress", quoted "0xa258b39954ceF5cB142fd567A46cDdB31a670124");
    ("expirationTimeSeconds", quoted "1574532801");
    ("signature", quoted "0x1bc0de") ].


(** The members of the object a text is read as. *)
Definition membersOf (text : string) : list (string * json) :=
  match loadDocument text with
  | inr (JObject m) => m
  | _ => []
  end.

(** The exchange addresses of the chains 1337 and 1111 of the table. *)
Definition exchange1337 : ContractAddresses :=
  {| Exchange := fromHex "48bacb9266a570d521063ef5dd96e61686dbe788" |}.

Definition exchange1111 : ContractAddresses :=
  {| Exchange := fromHex "1111111111111111111111111111111111111111" |}.

End sample.

(** * Properties *)

(** ** Bytes *)

Lemma byteZ_range (c : ascii) : 0 <= byteZ c < 256.
Proof.
  unfold byteZ. pose proof (N_ascii_bounded c) as H. lia.
Qed.

Lemma ofByteZ_byteZ (c : ascii) : ofByteZ (byteZ c) = c.
Proof.
  unfold ofByteZ, byteZ. rewrite N2Z.id. apply ascii_N_embedding.
Qed.

Lemma byteZ_ofByteZ (z : Z) : 0 <= z < 256 -> byteZ (ofByteZ z) = z.
Proof.
  intros H. unfold ofByteZ, byteZ.
  rewrite N_ascii_embedding by lia. lia.
Qed.

Lemma byteZ_inj (a b : ascii) : byteZ a = byteZ b -> a = b.
Proof.
  intros H. rewrite <- (ofByteZ_byteZ a), <- (ofByteZ_byteZ b). now rewrite H.
Qed.

Lemma append_assoc (a b c : string) : (a ++ b) ++ c = a ++ (b ++ c).
Proof.
  induction a as [|x a IH]; simpl; [reflexivity | now rewrite IH].
Qed.

Lemma append_empty_r (a : string) : a ++ "" = a.
Proof.
  induction a as [|x a IH]; simpl; [reflexivity | now rewrite IH].
Qed.

(** ** Printing and scanning integers *)

Module fmtFacts.
Import fmt.

Lemma allBytes_app p a b :
  allBytes p (a ++ b) = allBytes p a && allBytes p b.
Proof.
  induction a as [|x a IH]; simpl; [reflexivity|].
  now rewrite IH, andb_assoc.
Qed.

Lemma allBytes_impl (p q : ascii -> bool) s :
  (forall c, p c = true -> q c = true) -> allBytes p s = true -> allBytes q s = true.
Proof.
  intros Hpq. induction s as [|x s IH]; simpl; [reflexivity|].
  intros H. apply andb_true_iff in H as [H1 H2].
  now rewrite (Hpq _ H1), IH.
Qed.

Lemma asciiRunes_app a b : asciiRunes (a ++ b) = (asciiRunes a ++ asciiRunes b)%list.
Proof.
  induction a as [|x a IH]; simpl; [reflexivity | now rewrite IH].
Qed.

Lemma runesFrom_ascii s :
  allBytes (fun c => byteZ c <? 128) s = true ->
  forall n, (String.length s <= n)%nat -> runesFrom n s = asciiRunes s.
Proof.
  induction s as [|c s IH]; intros H n Hn.
  - destruct n; reflexivity.
  - simpl in H. apply andb_true_iff in H as [Hc Hs].
    destruct n as [|n]; [simpl in Hn; lia|].
    simpl. unfold decodeRune. rewrite Hc.
    rewrite IH; [reflexivity | assumption | simpl in Hn; lia].
Qed.

Lemma runes_ascii s :
  allBytes (fun c => byteZ c <? 128) s = true -> runes s = asciiRunes s.
Proof.
  intros H. unfold runes. now apply runesFrom_ascii.
Qed.

Lemma runes_word s : allBytes isWordByte s = true -> runes s = asciiRunes s.
Proof.
  intros H. apply runes_ascii. revert H. apply allBytes_impl.
  unfold isWordByte. intros c Hc. now apply andb_true_iff in Hc as [Hc _].
Qed.

Lemma token_word s :
  allBytes isWordByte s = true -> token (asciiRunes s) = (s, []).
Proof.
  induction s as [|c s IH]; simpl; intros H; [reflexivity|].
  apply andb_true_iff in H as [Hc Hs]. unfold isWordByte in Hc.
  apply andb_true_iff in Hc as [_ Hc]. apply negb_true_iff in Hc.
  rewrite Hc, (IH Hs). reflexivity.
Qed.

Lemma SkipSpace_word c rest :
  isSpace c = false -> forall w, SkipSpace ((c, w) :: rest) = Some ((c, w) :: rest).
Proof.
  intros Hc w. simpl.
  assert ((c =? 13) = false) as H13.
  { apply Z.eqb_neq. intros ->. discriminate. }
  assert ((c =? 10) = false) as H10.
  { apply Z.eqb_neq. intros ->. discriminate. }
  now rewrite H13, H10, Hc.
Qed.

Lemma acceptDigits_digits ds rest :
  allBytes isDigitByte ds = true ->
  match rest with
  | [] => True
  | r :: _ => isDecimalDigit (fst r) = false
  end ->
  acceptDigits (asciiRunes ds ++ rest) = (ds, rest).
Proof.
  intros Hds Hrest. induction ds as [|c ds IH]; simpl.
  - destruct rest as [|r rest]; [reflexivity|]. simpl in *. now rewrite Hrest.
  - simpl in Hds. apply andb_true_iff in Hds as [Hc Hds].
    unfold isDigitByte in Hc. unfold isDecimalDigit. cbn [fst]. rewrite Hc.
    now rewrite (IH Hds).
Qed.

Lemma parseDigits_app a s t :
  parseDigits a (s ++ t) =
  match parseDigits a s with
  | Some a' => parseDigits a' t
  | None => None
  end.
Proof.
  revert a. induction s as [|c s IH]; intros a; simpl; [reflexivity|].
  destruct (inRange 48 57 (byteZ c)); [apply IH | reflexivity].
Qed.

Lemma fmtDigits_app n : forall u acc, fmtDigits n u acc = fmtDigits n u "" ++ acc.
Proof.
  induction n as [|n IH]; intros u acc; simpl; [reflexivity|].
  destruct (u <? 10); [reflexivity|].
  rewrite (IH _ (String _ acc)), (IH _ (String _ "")).
  now rewrite append_assoc.
Qed.

Lemma byteZ_digitChar d : 0 <= d < 10 -> byteZ (digitChar d) = 48 + d.
Proof.
  intros H. unfold digitChar. apply byteZ_ofByteZ. lia.
Qed.

Lemma parseDigits_fmtDigits n :
  forall u, 0 <= u < 10 ^ Z.of_nat n -> parseDigits 0 (fmtDigits n u "") = Some u.
Proof.
  induction n as [|n IH]; intros u Hu.
  - simpl in *. f_equal. lia.
  - rewrite Nat2Z.inj_succ, Z.pow_succ_r in Hu by lia.
    simpl. destruct (u <? 10) eqn:E.
    + apply Z.ltb_lt in E. simpl.
      rewrite byteZ_digitChar by lia.
      unfold inRange.
      replace ((48 <=? 48 + u) && (48 + u <=? 57)) with true
        by (symmetry; apply andb_true_iff; split; apply Z.leb_le; lia).
      f_equal. lia.
    + apply Z.ltb_ge in E.
      rewrite fmtDigits_app, parseDigits_app.
      rewrite IH by (split; [apply Z.div_pos; lia | apply Z.div_lt_upper_bound; lia]).
      simpl. pose proof (Z.mod_pos_bound u 10 ltac:(lia)) as Hm.
      rewrite byteZ_digitChar by lia.
      unfold inRange.
      replace ((48 <=? 48 + u mod 10) && (48 + u mod 10 <=? 57)) with true
        by (symmetry; apply andb_true_iff; split; apply Z.leb_le; lia).
      f_equal. pose proof (Z.div_mod u 10 ltac:(lia)). lia.
Qed.

Lemma fmtDigits_digits n :
  forall u, 0 <= u -> allBytes isDigitByte (fmtDigits n u "") = true.
Proof.
  induction n as [|n IH]; intros u Hu; simpl; [reflexivity|].
  destruct (u <? 10) eqn:E.
  - apply Z.ltb_lt in E. simpl. unfold isDigitByte.
    rewrite byteZ_digitChar by lia. unfold inRange.
    rewrite andb_true_r. apply andb_true_iff; split; apply Z.leb_le; lia.
  - rewrite fmtDigits_app, allBytes_app.
    rewrite IH by (apply Z.div_pos; lia). simpl.
    pose proof (Z.mod_pos_bound u 10 ltac:(lia)) as Hm.
    unfold isDigitByte. rewrite byteZ_digitChar by lia. unfold inRange.
    rewrite andb_true_r. apply andb_true_iff; split; apply Z.leb_le; lia.
Qed.

Lemma fmtDigits_nonempty n u : fmtDigits (S n) u "" <> "".
Proof.
  simpl. destruct (u <? 10); [discriminate|].
  rewrite fmtDigits_app. destruct (fmtDigits n (u / 10) ""); discriminate.
Qed.

Lemma digit_not_sign c :
  isDigitByte c = true ->
  Ascii.eqb c "-" = false /\ Ascii.eqb c "+" = false
  /\ (byteZ c =? 43) = false /\ (byteZ c =? 45) = false
  /\ isSpace (byteZ c) = false /\ isDecimalDigit (byteZ c) = true.
Proof.
  unfold isDigitByte, inRange. intros H.
  apply andb_true_iff in H as [H1 H2]. apply Z.leb_le in H1, H2.
  repeat split.
  - apply Ascii.eqb_neq. intros ->. change (byteZ "-") with 45 in H1. lia.
  - apply Ascii.eqb_neq. intros ->. change (byteZ "+") with 43 in H1. lia.
  - apply Z.eqb_neq. lia.
  - apply Z.eqb_neq. lia.
  - unfold isSpace, inRange.
    repeat (apply orb_false_iff; split);
      try (apply Z.eqb_neq; lia);
      apply andb_false_iff; (left; apply Z.leb_gt; lia) || (right; apply Z.leb_gt; lia).
  - unfold isDecimalDigit, inRange.
    apply andb_true_iff; split; apply Z.leb_le; lia.
Qed.

Lemma ParseInt_fmtInteger z : intRange z -> ParseInt (fmtInteger z) = Some z.
Proof.
  unfold intRange, fmtInteger. intros Hz.
  assert (0 <= Z.abs z < 10 ^ Z.of_nat 20) as Habs.
  { change (10 ^ Z.of_nat 20) with 100000000000000000000.
    change (2 ^ 63) with 9223372036854775808 in Hz. lia. }
  pose proof (parseDigits_fmtDigits 20 (Z.abs z) Habs) as Hp.
  pose proof (fmtDigits_digits 20 (Z.abs z) (proj1 Habs)) as Hd.
  pose proof (fmtDigits_nonempty 19 (Z.abs z)) as Hne.
  destruct (fmtDigits 20 (Z.abs z) "") as [|c ds] eqn:E; [congruence|].
  destruct (z <? 0) eqn:Hneg.
  - apply Z.ltb_lt in Hneg.
    unfold ParseInt. change (Ascii.eqb "-" "-") with true. cbv iota beta. simpl orb.
    cbv iota. rewrite Hp.
    replace (Z.abs z <=? 2 ^ 63) with true by (symmetry; apply Z.leb_le; lia).
    f_equal. lia.
  - apply Z.ltb_ge in Hneg.
    simpl in Hd. apply andb_true_iff in Hd as [Hc _].
    destruct (digit_not_sign c Hc) as (H1 & H2 & _).
    unfold ParseInt. rewrite H1, H2. simpl orb. cbv iota. rewrite Hp.
    replace (Z.abs z <? 2 ^ 63) with true by (symmetry; apply Z.ltb_lt; lia).
    f_equal. lia.
Qed.

(** Scanning an integer that was printed gives it back, when no digit
    follows it. *)
Lemma scanInt_fmtInteger z rest :
  intRange z ->
  match rest with
  | [] => True
  | r :: _ => isDecimalDigit (fst r) = false
  end ->
  scanInt (asciiRunes (fmtInteger z) ++ rest) = Some (z, rest).
Proof.
  intros Hz Hrest.
  pose proof (ParseInt_fmtInteger z Hz) as HP.
  unfold fmtInteger in *.
  pose proof (fmtDigits_digits 20 (Z.abs z) (Z.abs_nonneg z)) as Hd.
  pose proof (fmtDigits_nonempty 19 (Z.abs z)) as Hne.
  destruct (fmtDigits 20 (Z.abs z) "") as [|c ds] eqn:E; [congruence|].
  pose proof Hd as Hd'. simpl in Hd'. apply andb_true_iff in Hd' as [Hc _].
  destruct (digit_not_sign c Hc) as (_ & _ & H43 & H45 & Hsp & Hdd).
  pose proof (acceptDigits_digits (String c ds) rest Hd Hrest) as HA.
  simpl asciiRunes in HA. rewrite <- app_comm_cons in HA.
  destruct (z <? 0).
  - unfold scanInt. simpl asciiRunes. rewrite <- !app_comm_cons.
    rewrite SkipSpace_word by reflexivity.
    cbv beta iota. change (byteZ "-") with 45. cbn [fst snd].
    change ((45 =? 43) || (45 =? 45)) with true. cbv iota.
    cbn [fst snd]. rewrite Hdd, HA.
    change ("-" ++ String c ds) with (String "-" (String c ds)). now rewrite HP.
  - unfold scanInt. simpl asciiRunes. rewrite <- !app_comm_cons.
    rewrite SkipSpace_word by exact Hsp.
    cbv beta iota. cbn [fst snd].
    rewrite H43, H45. simpl orb. cbv iota.
    cbn [fst snd]. rewrite Hdd, HA.
    change ("" ++ String c ds) with (String c ds). now rewrite HP.
Qed.

Lemma digit_word c : isDigitByte c = true -> isWordByte c = true.
Proof.
  intros H. destruct (digit_not_sign c H) as (_ & _ & _ & _ & Hs & _).
  unfold isWordByte. rewrite Hs, andb_true_r.
  unfold isDigitByte, inRange in H. apply andb_true_iff in H as [_ H].
  apply Z.leb_le in H. apply Z.ltb_lt. lia.
Qed.

Lemma fmtInteger_word z : allBytes isWordByte (fmtInteger z) = true.
Proof.
  unfold fmtInteger.
  assert (allBytes isWordByte (fmtDigits 20 (Z.abs z) "") = true) as H.
  { apply (allBytes_impl isDigitByte); [apply digit_word|].
    apply fmtDigits_digits, Z.abs_nonneg. }
  destruct (z <? 0); [cbn [allBytes]; rewrite H; reflexivity | exact H].
Qed.

Lemma fmtInteger_nonempty z : fmtInteger z <> "".
Proof.
  unfold fmtInteger. destruct (z <? 0); [discriminate|].
  apply (fmtDigits_nonempty 19).
Qed.

Lemma SkipSpace_ascii_word s rest :
  allBytes isWordByte s = true -> s <> "" ->
  SkipSpace (asciiRunes s ++ rest) = Some (asciiRunes s ++ rest)%list.
Proof.
  intros H Hne. destruct s as [|c s]; [congruence|].
  simpl in H. apply andb_true_iff in H as [Hc _].
  unfold isWordByte in Hc. apply andb_true_iff in Hc as [_ Hc].
  apply negb_true_iff in Hc.
  simpl asciiRunes. rewrite <- app_comm_cons. now apply SkipSpace_word.
Qed.

Lemma doScanf_literals p f a input :
  allBytes isLiteralByte p = true ->
  doScanf (p ++ f) a (asciiRunes p ++ input) = doScanf f a input.
Proof.
  induction p as [|c p IH]; intros H; [reflexivity|].
  simpl in H. apply andb_true_iff in H as [Hc Hp].
  unfold isLiteralByte in Hc. apply andb_true_iff in Hc as [H1 H2].
  apply negb_true_iff in H1, H2.
  simpl. rewrite H1, H2. unfold isRune. simpl fst. rewrite Z.eqb_refl.
  now apply IH.
Qed.

Lemma doScanf_d f a z rest :
  intRange z ->
  match rest with
  | [] => True
  | r :: _ => isDecimalDigit (fst r) = false
  end ->
  doScanf (String "%" (String "d" f)) (KInt :: a) (asciiRunes (fmtInteger z) ++ rest)
  = option_map (cons (AInt z)) (doScanf f a rest).
Proof.
  intros Hz Hrest.
  cbn [doScanf]. change (Ascii.eqb "%" "%") with true.
  change (Ascii.eqb "d" "d") with true. cbv iota.
  rewrite SkipSpace_ascii_word by (apply fmtInteger_word || apply fmtInteger_nonempty).
  now rewrite scanInt_fmtInteger.
Qed.

Lemma doScanf_s s :
  allBytes isWordByte s = true -> s <> "" ->
  doScanf "%s" [KStr] (asciiRunes s) = Some [AStr s].
Proof.
  intros H Hne.
  pose proof (SkipSpace_ascii_word s [] H Hne) as Hs. rewrite app_nil_r in Hs.
  cbn [doScanf]. change (Ascii.eqb "%" "%") with true.
  change (Ascii.eqb "s" "d") with false. change (Ascii.eqb "s" "s") with true.
  cbv iota. rewrite Hs. unfold convertString. rewrite Hs.
  destruct s as [|c s]; [congruence|].
  change (asciiRunes (String c s)) with ((byteZ c, String c "") :: asciiRunes s) in *.
  rewrite Hs.
  change ((byteZ c, String c "") :: asciiRunes s) with (asciiRunes (String c s)).
  now rewrite token_word.
Qed.

End fmtFacts.

(** ** base64 *)

Module base64Facts.
Import fmt base64 fmtFacts.

Lemma below_check (n : nat) (P : Z -> bool) :
  forallb P (map Z.of_nat (seq 0 n)) = true ->
  forall i, 0 <= i < Z.of_nat n -> P i = true.
Proof.
  intros H i Hi. rewrite forallb_forall in H. apply H.
  apply in_map_iff. exists (Z.to_nat i). split; [lia|].
  apply in_seq. lia.
Qed.

Lemma decodeMap_encodeChar i : 0 <= i < 64 -> decodeMap (encodeChar i) = Some i.
Proof.
  intros Hi.
  pose proof (below_check 64
                (fun i => match decodeMap (encodeChar i) with
                          | Some j => j =? i
                          | None => false
                          end) eq_refl i Hi) as H.
  cbv beta in H. destruct (decodeMap (encodeChar i)); [|discriminate].
  apply Z.eqb_eq in H. now subst.
Qed.

Lemma encodeChar_word i : 0 <= i < 64 -> isWordByte (encodeChar i) = true.
Proof.
  intros Hi. exact (below_check 64 (fun i => isWordByte (encodeChar i)) eq_refl i Hi).
Qed.

Lemma land_shiftl_low hi lo k :
  0 <= k -> 0 <= lo < 2 ^ k -> Z.land (Z.shiftl hi k) lo = 0.
Proof.
  intros Hk Hlo. apply Z.bits_inj'. intros n Hn.
  rewrite Z.land_spec, Z.bits_0.
  destruct (Z.lt_ge_cases n k) as [Hlt|Hge].
  - now rewrite Z.shiftl_spec_low.
  - rewrite <- (Z.mod_small lo (2 ^ k)) by lia.
    rewrite Z.mod_pow2_bits_high by lia. apply andb_false_r.
Qed.

Lemma lor_disjoint_add x y k :
  0 <= k -> x mod 2 ^ k = 0 -> 0 <= y < 2 ^ k -> Z.lor x y = x + y.
Proof.
  intros Hk Hx Hy.
  assert (x = Z.shiftl (x / 2 ^ k) k) as ->.
  { rewrite Z.shiftl_mul_pow2 by lia.
    pose proof (Z.div_mod x (2 ^ k) ltac:(lia)). lia. }
  rewrite <- Z.lxor_lor by (now apply land_shiftl_low).
  symmetry. apply Z.add_nocarry_lxor. now apply land_shiftl_low.
Qed.

Lemma land_63 x : Z.land x 63 = x mod 64.
Proof. exact (Z.land_ones x 6 ltac:(lia)). Qed.

Lemma land_255 x : Z.land x 255 = x mod 256.
Proof. exact (Z.land_ones x 8 ltac:(lia)). Qed.

Lemma sextet_range x : 0 <= Z.land x 63 < 64.
Proof. rewrite land_63. apply Z.mod_pos_bound. lia. Qed.

Ltac shifts :=
  rewrite ?Z.shiftl_mul_pow2, ?Z.shiftr_div_pow2, ?land_63, ?land_255 by lia;
  change (2 ^ 6) with 64; change (2 ^ 8) with 256; change (2 ^ 12) with 4096;
  change (2 ^ 16) with 65536; change (2 ^ 18) with 262144.

Lemma pack_bytes a b c :
  0 <= a < 256 -> 0 <= b < 256 -> 0 <= c < 256 ->
  Z.lor (Z.lor (Z.shiftl a 16) (Z.shiftl b 8)) c = a * 65536 + b * 256 + c.
Proof.
  intros Ha Hb Hc. shifts.
  rewrite (lor_disjoint_add (a * 65536) (b * 256) 16) by
    (try apply Z.mod_mul; change (2 ^ 16) with 65536; lia).
  apply (lor_disjoint_add _ _ 8); change (2 ^ 8) with 256; try lia.
  replace (a * 65536 + b * 256) with ((a * 256 + b) * 256) by lia.
  apply Z.mod_mul. lia.
Qed.

Lemma pack_two a b :
  0 <= a < 256 -> 0 <= b < 256 ->
  Z.lor (Z.shiftl a 16) (Z.shiftl b 8) = a * 65536 + b * 256.
Proof.
  intros Ha Hb. shifts.
  apply (lor_disjoint_add _ _ 16); change (2 ^ 16) with 65536; try lia.
  apply Z.mod_mul. lia.
Qed.

Lemma pack_sextets s0 s1 s2 s3 :
  0 <= s0 < 64 -> 0 <= s1 < 64 -> 0 <= s2 < 64 -> 0 <= s3 < 64 ->
  Z.lor (Z.lor (Z.lor (Z.shiftl s0 18) (Z.shiftl s1 12)) (Z.shiftl s2 6)) s3
  = s0 * 262144 + s1 * 4096 + s2 * 64 + s3.
Proof.
  intros H0 H1 H2 H3. shifts.
  rewrite (lor_disjoint_add (s0 * 262144) (s1 * 4096) 18) by
    (try apply Z.mod_mul; change (2 ^ 18) with 262144; lia).
  rewrite (lor_disjoint_add _ (s2 * 64) 12);
    [ | lia
      | replace (s0 * 262144 + s1 * 4096) with ((s0 * 64 + s1) * 2 ^ 12) by lia;
        apply Z.mod_mul; lia
      | change (2 ^ 12) with 4096; lia ].
  apply (lor_disjoint_add _ _ 6); change (2 ^ 6) with 64; try lia.
  replace (s0 * 262144 + s1 * 4096 + s2 * 64)
    with ((s0 * 4096 + s1 * 64 + s2) * 64) by lia.
  apply Z.mod_mul. lia.
Qed.

(** The four 6-bit values of three bytes decode to the three bytes. *)
Lemma quantum_full a b c :
  let val := Z.lor (Z.lor (Z.shiftl (byteZ a) 16) (Z.shiftl (byteZ b) 8)) (byteZ c) in
  quantumBytes
    [ Z.land (Z.shiftr val 18) 63; Z.land (Z.shiftr val 12) 63;
      Z.land (Z.shiftr val 6) 63; Z.land val 63 ] 4
  = String a (String b (String c "")).
Proof.
  intros val. unfold quantumBytes. cbn [nth].
  pose proof (byteZ_range a) as Ha. pose proof (byteZ_range b) as Hb.
  pose proof (byteZ_range c) as Hc.
  rewrite pack_sextets by apply sextet_range.
  assert (val = byteZ a * 65536 + byteZ b * 256 + byteZ c) as Hval
      by (now apply pack_bytes).
  unfold toByte. shifts. rewrite Hval.
  set (A := byteZ a) in *. set (B := byteZ b) in *. set (K := byteZ c) in *.
  assert (((A * 65536 + B * 256 + K) / 262144) mod 64 * 262144
          + ((A * 65536 + B * 256 + K) / 4096) mod 64 * 4096
          + ((A * 65536 + B * 256 + K) / 64) mod 64 * 64
          + (A * 65536 + B * 256 + K) mod 64 = A * 65536 + B * 256 + K) as ->
      by (Z.div_mod_to_equations; lia).
  replace (((A * 65536 + B * 256 + K) / 65536) mod 256) with A
    by (Z.div_mod_to_equations; lia).
  replace (((A * 65536 + B * 256 + K) / 256) mod 256) with B
    by (Z.div_mod_to_equations; lia).
  replace ((A * 65536 + B * 256 + K) mod 256) with K
    by (Z.div_mod_to_equations; lia).
  unfold A, B, K. now rewrite !ofByteZ_byteZ.
Qed.

Lemma quantum_two a b :
  let val := Z.lor (Z.shiftl (byteZ a) 16) (Z.shiftl (byteZ b) 8) in
  quantumBytes
    [ Z.land (Z.shiftr val 18) 63; Z.land (Z.shiftr val 12) 63;
      Z.land (Z.shiftr val 6) 63 ] 3
  = String a (String b "").
Proof.
  intros val. unfold quantumBytes. cbn [nth].
  pose proof (byteZ_range a) as Ha. pose proof (byteZ_range b) as Hb.
  rewrite pack_sextets by (apply sextet_range || lia).
  assert (val = byteZ a * 65536 + byteZ b * 256) as Hval by (now apply pack_two).
  unfold toByte. shifts. rewrite Hval.
  set (A := byteZ a) in *. set (B := byteZ b) in *.
  replace ((((A * 65536 + B * 256) / 262144) mod 64 * 262144
          + ((A * 65536 + B * 256) / 4096) mod 64 * 4096
          + ((A * 65536 + B * 256) / 64) mod 64 * 64 + 0) / 65536 mod 256) with A
    by (Z.div_mod_to_equations; lia).
  replace ((((A * 65536 + B * 256) / 262144) mod 64 * 262144
          + ((A * 65536 + B * 256) / 4096) mod 64 * 4096
          + ((A * 65536 + B * 256) / 64) mod 64 * 64 + 0) / 256 mod 256) with B
    by (Z.div_mod_to_equations; lia).
  unfold A, B. now rewrite !ofByteZ_byteZ.
Qed.

Lemma quantum_one a :
  let val := Z.shiftl (byteZ a) 16 in
  quantumBytes [ Z.land (Z.shiftr val 18) 63; Z.land (Z.shiftr val 12) 63 ] 2
  = String a "".
Proof.
  intros val. unfold quantumBytes. cbn [nth].
  pose proof (byteZ_range a) as Ha.
  rewrite pack_sextets by (apply sextet_range || lia).
  unfold toByte, val. shifts.
  set (A := byteZ a) in *.
  replace (((A * 65536 / 262144) mod 64 * 262144
          + (A * 65536 / 4096) mod 64 * 4096 + 0 * 64 + 0) / 65536 mod 256) with A
    by (Z.div_mod_to_equations; lia).
  unfold A. now rewrite ofByteZ_byteZ.
Qed.

Lemma string_ind3 (P : string -> Prop) :
  P "" ->
  (forall a, P (String a "")) ->
  (forall a b, P (String a (String b ""))) ->
  (forall a b c r, P r -> P (String a (String b (String c r)))) ->
  forall s, P s.
Proof.
  intros H0 H1 H2 H3 s.
  assert (P s /\ (forall a, P (String a s)) /\ (forall a b, P (String a (String b s))))
    as H; [|apply H].
  induction s as [|c s (IH0 & IH1 & IH2)].
  - auto.
  - repeat split; auto.
Qed.

Lemma decodeFrom_data dbuf c rest x :
  decodeMap c = Some x ->
  decodeFrom dbuf (String c rest) =
  if (List.length (dbuf ++ [x]) =? 4)%nat
  then option_map (append (quantumBytes (dbuf ++ [x]) 4)) (decodeFrom [] rest)
  else decodeFrom (dbuf ++ [x])%list rest.
Proof.
  intros H. simpl. now rewrite H.
Qed.

Lemma decodeFrom_sextet dbuf v rest :
  decodeFrom dbuf (String (encodeChar (Z.land v 63)) rest) =
  if (List.length (dbuf ++ [Z.land v 63]) =? 4)%nat
  then option_map (append (quantumBytes (dbuf ++ [Z.land v 63]) 4))
         (decodeFrom [] rest)
  else decodeFrom (dbuf ++ [Z.land v 63])%list rest.
Proof.
  apply decodeFrom_data, decodeMap_encodeChar, sextet_range.
Qed.

(** Decoding the encoding of a byte string gives the byte string. *)
Lemma DecodeString_EncodeToString s : DecodeString (EncodeToString s) = Some s.
Proof.
  unfold DecodeString. induction s as [| a | a b | a b c r IH] using string_ind3.
  - reflexivity.
  - cbn [EncodeToString]. rewrite !decodeFrom_sextet. cbn [app List.length Nat.eqb].
    cbn -[quantumBytes Z.land Z.shiftr Z.shiftl]. now rewrite quantum_one.
  - cbn [EncodeToString]. rewrite !decodeFrom_sextet. cbn [app List.length Nat.eqb].
    cbn -[quantumBytes Z.land Z.shiftr Z.shiftl Z.lor]. now rewrite quantum_two.
  - cbn [EncodeToString]. rewrite !decodeFrom_sextet. cbn [app List.length Nat.eqb].
    rewrite IH. cbn [option_map]. now rewrite quantum_full.
Qed.

Lemma EncodeToString_word s : allBytes isWordByte (EncodeToString s) = true.
Proof.
  induction s as [| a | a b | a b c r IH] using string_ind3;
    cbn [EncodeToString allBytes];
    rewrite ?encodeChar_word by apply sextet_range;
    [reflexivity | reflexivity | reflexivity | exact IH].
Qed.

Lemma EncodeToString_nonempty s : s <> "" -> EncodeToString s <> "".
Proof.
  destruct s as [|a [|b [|c r]]]; [congruence | discriminate ..].
Qed.

End base64Facts.

(** ** Regular expressions *)

Module regexpFacts.

#[local] Hint Constructors matches : core.

Lemma append_nil_inv a b : a ++ b = "" -> a = "" /\ b = "".
Proof.
  destruct a; simpl; [auto | discriminate].
Qed.

Lemma nullable_iff r : nullable r = true <-> matches r "".
Proof.
  split.
  - induction r; simpl; intros H; try discriminate; auto.
    + apply andb_true_iff in H as [H1 H2].
      change "" with ("" ++ ""). auto.
    + apply orb_true_iff in H as [H|H]; auto.
  - intros H. remember "" as s eqn:Es.
    induction H; simpl; auto; try discriminate.
    + apply append_nil_inv in Es as [-> ->]. now rewrite IHmatches1, IHmatches2.
    + now rewrite IHmatches.
    + rewrite IHmatches by assumption. apply orb_true_r.
Qed.

(** A non-empty word of a star starts with a non-empty word of its body. *)
Lemma star_cons_inv r c s :
  matches (Star r) (String c s) ->
  exists s1 s2, s = s1 ++ s2 /\ matches r (String c s1) /\ matches (Star r) s2.
Proof.
  intros H. remember (Star r) as r' eqn:Er. remember (String c s) as w eqn:Ew.
  revert c s Ew. induction H; intros c' s' Ew; try discriminate.
  injection Er as ->.
  destruct s1 as [|x s1].
  - simpl in Ew. now apply IHmatches2.
  - simpl in Ew. injection Ew as -> <-. eauto.
Qed.

Lemma deriv_sound c r : forall s, matches (deriv c r) s -> matches r (String c s).
Proof.
  induction r; simpl; intros s H.
  - inversion H.
  - inversion H.
  - destruct (p c) eqn:E; inversion H; subst. auto.
  - destruct (nullable r1) eqn:N.
    + inversion H; subst.
      * match goal with
        | [ Hc : matches (Cat _ _) _ |- _ ] => inversion Hc; subst
        end.
        change (String c (s1 ++ s2)) with (String c s1 ++ s2). auto.
      * apply nullable_iff in N.
        change (String c s) with ("" ++ String c s). auto.
    + inversion H; subst.
      change (String c (s1 ++ s2)) with (String c s1 ++ s2). auto.
  - inversion H; subst; auto.
  - inversion H; subst.
    change (String c (s1 ++ s2)) with (String c s1 ++ s2). auto.
Qed.

Lemma deriv_complete c r : forall s, matches r (String c s) -> matches (deriv c r) s.
Proof.
  induction r; simpl; intros s H.
  - inversion H.
  - inversion H.
  - inversion H; subst. match goal with [ Hp : p c = true |- _ ] => rewrite Hp end.
    auto.
  - inversion H; subst.
    destruct s1 as [|x s1].
    + simpl in *. subst.
      match goal with
      | [ Hn : matches r1 "" |- _ ] => apply nullable_iff in Hn; rewrite Hn
      end.
      auto.
    + match goal with
      | [ He : String x s1 ++ s2 = String c s |- _ ] =>
          simpl in He; injection He as -> <-
      end.
      destruct (nullable r1); auto.
  - inversion H; subst; auto.
  - apply star_cons_inv in H as (s1 & s2 & -> & H1 & H2). auto.
Qed.

Theorem matchb_iff r s : matchb r s = true <-> matches r s.
Proof.
  revert r. induction s as [|c s IH]; intros r; simpl.
  - apply nullable_iff.
  - rewrite IH. split; [apply deriv_sound | apply deriv_complete].
Qed.

Lemma matches_lit s : matches (lit s) s.
Proof.
  induction s as [|c s IH]; simpl; [auto|].
  change (String c s) with (String c "" ++ s).
  constructor; [|assumption]. constructor. apply Ascii.eqb_refl.
Qed.

Lemma matches_lit_inv s w : matches (lit s) w -> w = s.
Proof.
  revert w. induction s as [|c s IH]; simpl; intros w H.
  - now inversion H.
  - inversion H; subst.
    match goal with [ Hc : matches (Class _) _ |- _ ] => inversion Hc; subst end.
    match goal with [ He : Ascii.eqb _ _ = true |- _ ] => apply Ascii.eqb_eq in He; subst end.
    simpl. f_equal. now apply IH.
Qed.

Lemma matches_rep p n s :
  String.length s = n -> allBytes p s = true -> matches (rep n (Class p)) s.
Proof.
  revert s. induction n as [|n IH]; intros s Hn Hp.
  - destruct s; [constructor | discriminate].
  - destruct s as [|c s]; [discriminate|].
    simpl in *. apply andb_true_iff in Hp as [Hc Hs].
    change (String c s) with (String c "" ++ s). auto.
Qed.

Lemma matches_star_any s : matches (Star anyByte) s.
Proof.
  induction s as [|c s IH]; [auto|].
  change (String c s) with (String c "" ++ s).
  constructor; [|assumption]. now constructor.
Qed.

Lemma matches_star_class p s :
  allBytes p s = true -> matches (Star (Class p)) s.
Proof.
  induction s as [|c s IH]; simpl; intros H; [auto|].
  apply andb_true_iff in H as [Hc Hs].
  change (String c s) with (String c "" ++ s). auto.
Qed.

(** What [MatchString] decides: some part of the subject is a word of
    the body, at the start or the end of the subject where the pattern is
    anchored there. *)
Theorem MatchString_iff p s :
  MatchString p s = true <->
  exists pre mid post,
    s = pre ++ mid ++ post /\ matches (body p) mid
    /\ (bol p = true -> pre = "") /\ (eol p = true -> post = "").
Proof.
  unfold MatchString. rewrite matchb_iff. split.
  - intros H. inversion H; subst.
    match goal with [ Hc : matches (Cat (body p) _) _ |- _ ] => inversion Hc; subst end.
    exists s1, s0, s3. repeat split; auto.
    + intros Hb. rewrite Hb in *.
      match goal with [ He : matches Eps _ |- _ ] => now inversion He end.
    + intros He. rewrite He in *.
      match goal with [ Hm : matches Eps s3 |- _ ] => now inversion Hm end.
  - intros (pre & mid & post & -> & Hm & Hb & He).
    constructor.
    + destruct (bol p); [rewrite Hb by reflexivity; constructor | apply matches_star_any].
    + constructor; [assumption|].
      destruct (eol p); [rewrite He by reflexivity; constructor | apply matches_star_any].
Qed.

End regexpFacts.

(** ** The topic codec *)

Section TopicCodec.

Context {C : Collaborators}.
Import fmt fmtFacts base64 base64Facts.

Lemma generateTopic_eq (f : Filter) :
  generateTopic f =
  "/0x-orders/version/3/chain/"
  ++ fmtInteger (chainID f)
  ++ "/schema/"
  ++ EncodeToString (canonicalOrderSchemaJSON (rawCustomOrderSchema f)).
Proof.
  unfold generateTopic.
  set (b := EncodeToString _). set (c := chainID f).
  rewrite <- (append_empty_r b) at 2. reflexivity.
Qed.

Lemma generateTopic_nonempty (f : Filter) : generateTopic f <> "".
Proof. rewrite generateTopic_eq. discriminate. Qed.

(** The scan of the version format on a printed version and what
    follows it. *)
Lemma Sscanf_version (v : Z) (rest : string) :
  intRange v ->
  allBytes isWordByte rest = true -> rest <> "" ->
  match asciiRunes rest with
  | [] => True
  | r :: _ => isDecimalDigit (fst r) = false
  end ->
  Sscanf ("/0x-orders/version/" ++ fmtInteger v ++ rest) topicVersionFormat
    [KInt; KStr]
  = Some [AInt v; AStr rest].
Proof.
  intros Hv Hw Hne Hd. unfold Sscanf.
  rewrite runes_word
    by (rewrite !allBytes_app, fmtInteger_word, Hw; reflexivity).
  rewrite !asciiRunes_app.
  change topicVersionFormat with ("/0x-orders/version/" ++ "%d%s").
  rewrite doScanf_literals by reflexivity.
  rewrite doScanf_d by assumption.
  now rewrite doScanf_s.
Qed.

Lemma Sscanf_chainIDAndSchema (c : Z) (b : string) :
  intRange c ->
  allBytes isWordByte b = true -> b <> "" ->
  Sscanf ("/chain/" ++ fmtInteger c ++ "/schema/" ++ b) topicChainIDAndSchemaFormat
    [KInt; KStr]
  = Some [AInt c; AStr b].
Proof.
  intros Hc Hw Hne. unfold Sscanf.
  rewrite runes_word
    by (rewrite !allBytes_app, fmtInteger_word, Hw; reflexivity).
  rewrite !asciiRunes_app.
  change topicChainIDAndSchemaFormat with ("/chain/" ++ ("%d" ++ ("/schema/" ++ "%s"))).
  rewrite doScanf_literals by reflexivity.
  change ("%d" ++ ("/schema/" ++ "%s")) with (String "%" (String "d" ("/schema/" ++ "%s"))).
  rewrite doScanf_d by (assumption || reflexivity).
  rewrite doScanf_literals by reflexivity.
  now rewrite doScanf_s.
Qed.

(** What [New] stores in the filter it returns. *)
Lemma New_fields (chain : Z) (schema : string) (f : Filter) :
  New chain schema = Ok f ->
  topic f = "" /\ chainID f = chain /\ rawCustomOrderSchema f = schema.
Proof.
  unfold New. destruct (newLoader chain schema) as [orderLoader e].
  destruct (Compile orderLoader rootOrderSchemaLoader); cbn [bind]; try discriminate.
  destruct (AddSchemasTo orderLoader [rootOrderSchemaLoader]); cbn [bind];
    try discriminate.
  match goal with
  | [ |- context [Compile ?l ?r] ] => destruct (Compile l r)
  end; cbn [bind]; try discriminate.
  intros H. injection H as <-. auto.
Qed.

(** C1.  Decoding the topic of a filter calls [New] on the filter's chain
    and the canonical text of its schema, for every chain that is a Go
    int and every schema whose canonical text is not empty (the encoder
    returned bytes); so a filter that decoding returns carries that
    chain and that text. *)
Theorem NewFromTopic_generateTopic (f : Filter) :
  intRange (chainID f) ->
  canonicalOrderSchemaJSON (rawCustomOrderSchema f) <> "" ->
  NewFromTopic (generateTopic f)
  = New (chainID f) (canonicalOrderSchemaJSON (rawCustomOrderSchema f))
  /\ (forall g, NewFromTopic (generateTopic f) = Ok g ->
        chainID g = chainID f
        /\ rawCustomOrderSchema g
           = canonicalOrderSchemaJSON (rawCustomOrderSchema f)).
Proof.
  intros Hc Hne.
  set (canonical := canonicalOrderSchemaJSON (rawCustomOrderSchema f)) in *.
  assert (NewFromTopic (generateTopic f) = New (chainID f) canonical) as Heq.
  { rewrite generateTopic_eq. fold canonical. unfold NewFromTopic.
    change ("/0x-orders/version/3/chain/"
            ++ fmtInteger (chainID f) ++ "/schema/" ++ EncodeToString canonical)
      with ("/0x-orders/version/" ++ fmtInteger 3
            ++ ("/chain/" ++ fmtInteger (chainID f)
                ++ "/schema/" ++ EncodeToString canonical)).
    rewrite Sscanf_version;
      [ | unfold intRange; lia
        | rewrite !allBytes_app, fmtInteger_word, EncodeToString_word; reflexivity
        | discriminate
        | reflexivity ].
    change (negb (3 =? pubsubTopicVersion)) with false. cbv iota.
    rewrite Sscanf_chainIDAndSchema;
      [ | assumption | apply EncodeToString_word
        | now apply EncodeToString_nonempty ].
    now rewrite DecodeString_EncodeToString. }
  split; [exact Heq|].
  intros g Hg. rewrite Heq in Hg. apply New_fields in Hg. tauto.
Qed.

(** C3.  A topic whose version reads as an integer other than 3 is
    refused with [WrongTopicVersionError] carrying 3 and the version
    read, and nothing after the version is looked at: on every topic on
    which the scan of the version format succeeds, and so on every topic
    of the grammar, which is the text before the version, the version in
    decimal, a slash and any text without white space, the chain and the
    schema of a well-formed topic or anything else. *)
Theorem NewFromTopic_wrong_version (version : Z) :
  version <> 3 ->
  (forall topic rest,
     Sscanf topic topicVersionFormat [KInt; KStr] = Some [AInt version; AStr rest] ->
     NewFromTopic topic = Err (WrongTopicVersionError 3 version))
  /\ (forall rest,
        intRange version ->
        allBytes isWordByte rest = true ->
        NewFromTopic ("/0x-orders/version/" ++ fmtInteger version ++ "/" ++ rest)
        = Err (WrongTopicVersionError 3 version)).
Proof.
  intros Hv.
  assert (forall topic rest,
            Sscanf topic topicVersionFormat [KInt; KStr]
            = Some [AInt version; AStr rest] ->
            NewFromTopic topic = Err (WrongTopicVersionError 3 version)) as Hscan.
  { intros topic rest Hscan. unfold NewFromTopic. rewrite Hscan.
    unfold pubsubTopicVersion.
    replace (version =? 3) with false by (symmetry; now apply Z.eqb_neq).
    reflexivity. }
  split; [exact Hscan|].
  intros rest Hi Hw. apply (Hscan _ ("/" ++ rest)).
  apply Sscanf_version; [assumption | cbn; now rewrite Hw | discriminate | reflexivity].
Qed.

(** C2 at its failing input.  When the address table has no entry for
    the chain, [New] dereferences the nil loader and panics. *)
Theorem New_unknown_chain_panics (chain : Z) (schema : string) (err : error) :
  GetContractAddressesForChainID chain = inl err ->
  New chain schema = Panic.
Proof.
  intros H. unfold New, newLoader, loadExchangeAddress. now rewrite H.
Qed.

(** C9.  When decoding the raw schema fails and leaves the holder as it
    was, and the encoder writes the empty struct as the two bytes of an
    empty object, the topic ends in the base64url text of those bytes,
    and [Topic] returns it. *)
Theorem generateTopic_unparseable (f : Filter) (err : error) :
  Unmarshal (rawCustomOrderSchema f) emptyStruct = (emptyStruct, Some err) ->
  fst (Marshal emptyStruct) = "{}" ->
  generateTopic f
  = "/0x-orders/version/3/chain/" ++ fmtInteger (chainID f) ++ "/schema/e30="
  /\ (topic f = "" -> fst (Topic f) = generateTopic f).
Proof.
  intros HU HM. split.
  - rewrite generateTopic_eq. unfold canonicalOrderSchemaJSON. rewrite HU.
    destruct (Marshal emptyStruct) as [bytes e]. simpl in HM. now subst.
  - intros Ht. unfold Topic. now rewrite Ht.
Qed.

Lemma Topic_cached (f : Filter) :
  topic f <> "" -> Topic f = (topic f, f).
Proof.
  intros H. unfold Topic.
  destruct (String.eqb (topic f) "") eqn:E; [|reflexivity].
  apply String.eqb_eq in E. contradiction.
Qed.

Lemma Topic_fresh (f : Filter) :
  topic f = "" -> Topic f = (generateTopic f, setTopic f (generateTopic f)).
Proof.
  intros H. unfold Topic. now rewrite H.
Qed.

Lemma TopicCalls_cached (n : nat) (f : Filter) :
  topic f <> "" -> TopicCalls n f = (repeat (topic f) n, f).
Proof.
  intros H. induction n as [|n IH]; [reflexivity|].
  cbn [TopicCalls]. rewrite (Topic_cached f H), IH. reflexivity.
Qed.

(** C6.  On a filter that [New] returned, the first call of [Topic]
    returns the generated topic and stores it, and any number of calls
    return that same string, the filter staying as the first call left
    it. *)
Theorem Topic_idempotent (chain : Z) (schema : string) (f : Filter) :
  New chain schema = Ok f ->
  Topic f = (generateTopic f, setTopic f (generateTopic f))
  /\ generateTopic f
     = Sprintf fullTopicFormat
         [AInt pubsubTopicVersion; AInt chain;
          AStr (EncodeToString (canonicalOrderSchemaJSON schema))]
  /\ forall n,
       TopicCalls (S n) f
       = (repeat (generateTopic f) (S n), setTopic f (generateTopic f)).
Proof.
  intros HN. apply New_fields in HN as (Ht & Hc & Hs).
  split; [now apply Topic_fresh|]. split.
  - unfold generateTopic. now rewrite Hc, Hs.
  - intros n. cbn [TopicCalls]. rewrite (Topic_fresh f Ht).
    rewrite TopicCalls_cached by apply generateTopic_nonempty.
    reflexivity.
Qed.

(** C10.  After any number of calls of [Topic] the chain, the raw schema
    and the two compiled schemas of the filter (and its version) are the
    ones it had before. *)
Theorem Topic_frame (n : nat) (f : Filter) :
  let f' := snd (TopicCalls n f) in
  chainID f' = chainID f
  /\ rawCustomOrderSchema f' = rawCustomOrderSchema f
  /\ orderSchema f' = orderSchema f
  /\ messageSchema f' = messageSchema f
  /\ version f' = version f.
Proof.
  revert f. induction n as [|n IH]; intros f; [cbn; auto|].
  cbn [TopicCalls].
  destruct (Topic f) as [t f1] eqn:E1.
  specialize (IH f1). destruct (TopicCalls n f1) as [ts f2]. cbn [snd] in *.
  assert (chainID f1 = chainID f /\ rawCustomOrderSchema f1 = rawCustomOrderSchema f
          /\ orderSchema f1 = orderSchema f /\ messageSchema f1 = messageSchema f
          /\ version f1 = version f) as H1.
  { unfold Topic in E1. injection E1 as _ <-.
    destruct (String.eqb (topic f) ""); cbn; auto. }
  destruct IH as (? & ? & ? & ? & ?), H1 as (? & ? & ? & ? & ?).
  repeat split; congruence.
Qed.

(** C4.  Two filters for one chain whose schema texts decode to the same
    value, as texts that differ in white space and member order do,
    return the same topic. *)
Theorem Topic_canonical (chain : Z) (a b : string) (fa fb : Filter) :
  New chain a = Ok fa ->
  New chain b = Ok fb ->
  fst (Unmarshal a emptyStruct) = fst (Unmarshal b emptyStruct) ->
  fst (Topic fa) = fst (Topic fb).
Proof.
  intros Ha Hb Heq.
  apply New_fields in Ha as (Hta & Hca & Hsa).
  apply New_fields in Hb as (Htb & Hcb & Hsb).
  rewrite (Topic_fresh fa Hta), (Topic_fresh fb Htb). cbn [fst].
  unfold generateTopic, canonicalOrderSchemaJSON.
  rewrite Hca, Hcb, Hsa, Hsb.
  destruct (Unmarshal a emptyStruct) as [va ea], (Unmarshal b emptyStruct) as [vb eb].
  cbn [fst] in Heq. now subst.
Qed.

End TopicCodec.

(** ** Patterns *)

Module patternFacts.
Import regexpFacts.

Lemma length_append a b :
  String.length (a ++ b) = (String.length a + String.length b)%nat.
Proof.
  induction a as [|c a IH]; simpl; [reflexivity | now rewrite IH].
Qed.

Lemma MatchString_whole p s : matches (body p) s -> MatchString p s = true.
Proof.
  intros H. apply MatchString_iff. exists "", s, "".
  rewrite append_empty_r. auto.
Qed.

Lemma MatchString_address s : isAddressText s = true -> MatchString addressPattern s = true.
Proof.
  destruct s as [|a [|b h]]; try discriminate. cbn [isAddressText].
  intros H. apply andb_true_iff in H as [H Hh].
  apply andb_true_iff in H as [H Hl]. apply andb_true_iff in H as [Ha Hb].
  apply Ascii.eqb_eq in Ha, Hb. apply Nat.eqb_eq in Hl. subst a b.
  apply MatchString_whole. cbn [body addressPattern].
  change (String "0" (String "x" h)) with ("0x" ++ h).
  constructor; [apply matches_lit | now apply matches_rep].
Qed.

Lemma MatchString_wholeNumber s :
  s <> "" -> allBytes isDigit s = true -> MatchString wholeNumberPattern s = true.
Proof.
  destruct s as [|c s]; [congruence|]. intros _ H.
  cbn [allBytes] in H. apply andb_true_iff in H as [Hc Hs].
  apply MatchString_whole. cbn [body wholeNumberPattern]. unfold plus.
  change (String c s) with (String c "" ++ s).
  constructor; [now constructor | now apply matches_star_class].
Qed.

Lemma matches_pairs n :
  forall r, (String.length r <= n)%nat -> isHexPairs r = true ->
  matches (Star (Cat (Class isHexDigit) (Class isHexDigit))) r.
Proof.
  induction n as [|n IH]; intros r Hn Hr.
  - destruct r; [constructor | simpl in Hn; lia].
  - destruct r as [|a [|b r]]; [constructor | discriminate |].
    cbn [isHexPairs] in Hr. apply andb_true_iff in Hr as [Hab Hr].
    apply andb_true_iff in Hab as [Ha Hb].
    change (String a (String b r)) with (String a (String b "") ++ r).
    constructor.
    + change (String a (String b "")) with (String a "" ++ String b "").
      constructor; now constructor.
    + apply IH; [simpl in Hn; lia | assumption].
Qed.

Lemma MatchString_hex s : isHexText s = true -> MatchString hexPattern s = true.
Proof.
  destruct s as [|a [|b h]]; try discriminate. cbn [isHexText].
  intros H. apply andb_true_iff in H as [H Hh].
  apply andb_true_iff in H as [Ha Hb].
  apply Ascii.eqb_eq in Ha, Hb. subst a b.
  apply MatchString_whole. cbn [body hexPattern].
  change (String "0" (String "x" h)) with ("0x" ++ h).
  constructor; [apply matches_lit|].
  destruct h as [|x [|y r]]; [apply MAltR; constructor | discriminate |].
  apply MAltL. unfold plus.
  cbn [isHexPairs] in Hh. apply andb_true_iff in Hh as [Hxy Hr].
  apply andb_true_iff in Hxy as [Hx Hy].
  change (String x (String y r)) with (String x (String y "") ++ r).
  constructor.
  - change (String x (String y "")) with (String x "" ++ String y "").
    constructor; now constructor.
  - now apply (matches_pairs (String.length r)).
Qed.

(** A pattern that is a plain text is found in the texts that contain it. *)
Lemma MatchString_literal text s :
  MatchString (literalPattern text) s = true
  <-> exists pre post, s = pre ++ text ++ post.
Proof.
  rewrite MatchString_iff. cbn [body bol eol literalPattern]. split.
  - intros (pre & mid & post & -> & Hm & _). apply matches_lit_inv in Hm. subst.
    eauto.
  - intros (pre & post & ->). exists pre, text, post.
    repeat split; try discriminate. apply matches_lit.
Qed.

Lemma MatchString_literal_self text : MatchString (literalPattern text) text = true.
Proof.
  apply MatchString_literal. exists "", "". now rewrite append_empty_r.
Qed.

Lemma MatchString_literal_same_length text s :
  String.length s = String.length text ->
  MatchString (literalPattern text) s = true -> s = text.
Proof.
  intros Hl H. apply MatchString_literal in H as (pre & post & ->).
  rewrite !length_append in Hl.
  destruct pre; [|simpl in Hl; lia].
  destruct post; [|simpl in Hl; lia].
  now rewrite append_empty_r.
Qed.

Lemma length_ToLower s : String.length (ToLower s) = String.length s.
Proof.
  induction s as [|c s IH]; simpl; [reflexivity | now rewrite IH].
Qed.

End patternFacts.

(** ** The loops of validation *)

Section Loops.

Context {C : Collaborators}.


Lemma member_removeMember_other k k' m :
  k' <> k -> member k' (removeMember k m) = member k' m.
Proof.
  intros Hk. induction m as [|[k0 v] m IH]; [reflexivity|].
  cbn [removeMember member]. destruct (String.eqb k0 k) eqn:E.
  - apply String.eqb_eq in E. subst k0.
    destruct (String.eqb k k') eqn:E'; [|exact IH].
    apply String.eqb_eq in E'. congruence.
  - cbn [member]. now rewrite IH.
Qed.

Lemma Valid_errors r : Valid r = true <-> errors r = [].
Proof.
  unfold Valid. destruct (errors r); split; congruence.
Qed.

Lemma validateRequired_incl req value ctx :
  forall result e,
    In e (errors result) -> In e (errors (validateRequired req value ctx result)).
Proof.
  induction req as [|p req IH]; intros result e He; [exact He|].
  cbn [validateRequired]. apply IH.
  destruct (member p value); cbn; [exact He | apply in_or_app; now left].
Qed.

Lemma validateRequired_missing req value ctx p :
  In p req -> member p value = None ->
  forall result,
    In (RequiredError ctx p) (errors (validateRequired req value ctx result)).
Proof.
  induction req as [|q req IH]; intros Hin Hm result; [contradiction|].
  cbn [validateRequired]. destruct Hin as [->|Hin].
  - apply validateRequired_incl. rewrite Hm. cbn. apply in_or_app. right. now left.
  - now apply IH.
Qed.

Lemma validateRequired_present req value ctx :
  (forall p, In p req -> member p value <> None) ->
  forall result, errors (validateRequired req value ctx result) = errors result.
Proof.
  induction req as [|q req IH]; intros H result; [reflexivity|].
  cbn [validateRequired]. rewrite IH by (intros p Hp; apply H; now right).
  destruct (member q value) eqn:E; [reflexivity|].
  exfalso. apply (H q); [now left | exact E].
Qed.

Lemma propertiesLoop_valid sub children value ctx :
  Forall (fun '(p, s) =>
            forall v, member p value = Some v ->
                      exists r, sub s v (ctx ++ [p])%list = Some r /\ errors r = [])
         children ->
  forall result,
  exists r', propertiesLoop sub children value ctx result = Some r'
             /\ errors r' = errors result.
Proof.
  induction 1 as [|[p s] children Hp _ IH]; intros result; cbn [propertiesLoop].
  - eauto.
  - destruct (member p value) as [v|] eqn:E; [|apply IH].
    destruct (Hp v eq_refl) as (r & -> & Hr).
    destruct (IH (mergeErrors result r)) as (r' & -> & Hr').
    exists r'. split; [reflexivity|].
    rewrite Hr'. cbn. rewrite Hr. apply app_nil_r.
Qed.

Lemma propertiesLoop_total sub children value ctx :
  Forall (fun '(p, s) => forall v c, exists r, sub s v c = Some r) children ->
  forall result,
  exists r', propertiesLoop sub children value ctx result = Some r'
             /\ (forall e, In e (errors result) -> In e (errors r')).
Proof.
  induction 1 as [|[p s] children Hp _ IH]; intros result; cbn [propertiesLoop].
  - eauto.
  - destruct (member p value) as [v|] eqn:E; [|apply IH].
    destruct (Hp v (ctx ++ [p])%list) as (r & ->).
    destruct (IH (mergeErrors result r)) as (r' & -> & Hr').
    exists r'. split; [reflexivity|].
    intros e He. apply Hr'. cbn. apply in_or_app. now left.
Qed.

Lemma allOfLoop_spec sub l rs :
  Forall2 (fun alt r => sub alt = Some r) l rs ->
  forall nb result,
  exists r',
    allOfLoop sub l nb result
    = Some ((nb + List.length (filter Valid rs))%nat, r')
    /\ errors r' = (errors result ++ flat_map errors rs)%list.
Proof.
  induction 1 as [|alt r l rs Hr _ IH]; intros nb result; cbn [allOfLoop].
  - exists result. cbn. now rewrite Nat.add_0_r, app_nil_r.
  - rewrite Hr.
    destruct (IH (if Valid r then S nb else nb) (mergeErrors result r))
      as (r' & -> & Hr').
    exists r'. split.
    + cbn [filter]. destruct (Valid r); cbn [List.length]; do 2 f_equal; lia.
    + rewrite Hr'. cbn. now rewrite app_assoc.
Qed.

(** A schema that is an allOf and nothing else, on an object whose
    validation against each alternative ends. *)
Lemma validate_allOf d pool s m ctx rs :
  ref s = None -> types s = [] -> anyOf s = [] -> oneOf s = [] -> extra s = [] ->
  properties s = [] -> required s = [] ->
  Forall2 (fun alt r => validateRecursive d pool alt (JObject m) ctx = Some r)
    (allOf s) rs ->
  exists r,
    validateRecursive (S d) pool s (JObject m) ctx = Some r
    /\ (forallb Valid rs = true -> errors r = [])
    /\ (forall x e, In x rs -> In e (errors x) -> In e (errors r)).
Proof.
  intros Href Htypes Hany Hone Hextra Hprops Hreq Hall.
  cbn [validateRecursive]. rewrite Href. unfold isTyped. rewrite Htypes.
  cbn [andb]. unfold validateSchema. rewrite Hany, Hone, Hextra, Hprops, Hreq.
  cbn [validateCommon validateRequired propertiesLoop].
  destruct (allOfLoop_spec _ _ _ Hall 0%nat emptyResult) as (r' & Hloop & Hr').
  pose proof (Forall2_length Hall) as Hlen.
  destruct (allOf s) as [|alt l] eqn:El.
  - inversion Hall; subst. eexists. split; [reflexivity|].
    split; [reflexivity | contradiction].
  - rewrite Hloop. cbn [Nat.add].
    eexists. split; [reflexivity|]. split.
    + intros Hv.
      assert (filter Valid rs = rs) as ->.
      { clear -Hv. induction rs as [|x rs IH]; [reflexivity|].
        cbn in *. apply andb_true_iff in Hv as [Hx Hrs]. rewrite Hx.
        now rewrite IH. }
      rewrite <- Hlen, Nat.eqb_refl. cbn [errors incrementScore]. rewrite Hr'.
      cbn. clear -Hv. induction rs as [|x rs IH]; [reflexivity|].
      cbn in *. apply andb_true_iff in Hv as [Hx Hrs].
      apply Valid_errors in Hx. rewrite Hx. now apply IH.
    + intros x e Hx He.
      assert (In e (errors r')) as Hin.
      { rewrite Hr'. apply in_or_app. right. apply in_flat_map. eauto. }
      destruct (_ =? _)%nat; cbn; [exact Hin | apply in_or_app; now left].
Qed.

Lemma propertiesLoop_incl sub children value ctx :
  forall result r' e,
    propertiesLoop sub children value ctx result = Some r' ->
    In e (errors result) -> In e (errors r').
Proof.
  induction children as [|[p s] children IH]; intros result r' e; cbn [propertiesLoop].
  - intros H He. injection H as <-. exact He.
  - destruct (member p value) as [v|]; [|apply IH].
    destruct (sub s v (ctx ++ [p])%list) as [r|]; [|discriminate].
    intros H He. apply (IH _ _ _ H). cbn. apply in_or_app. now left.
Qed.

(** An error of the value of a property is an error of the object. *)
Lemma propertiesLoop_error sub children value ctx p s v r e :
  In (p, s) children ->
  member p value = Some v ->
  sub s v (ctx ++ [p])%list = Some r ->
  In e (errors r) ->
  forall result r',
    propertiesLoop sub children value ctx result = Some r' -> In e (errors r').
Proof.
  intros Hin Hm Hs He.
  induction children as [|[p' s'] children IH]; [contradiction|].
  intros result r'. cbn [propertiesLoop]. destruct Hin as [Heq|Hin].
  - injection Heq as -> ->. rewrite Hm, Hs. intros H.
    apply (propertiesLoop_incl _ _ _ _ _ _ _ H). cbn. apply in_or_app. now right.
  - destruct (member p' value) as [v'|]; [|now apply IH].
    destruct (sub s' v' (ctx ++ [p'])%list); [|discriminate].
    now apply IH.
Qed.

End Loops.

(** ** Validation against the order schema *)

Section OrderSchema.

Context {C : Collaborators}.
Import patternFacts.

Variable pool : schemaPool.
Variable exchange : Address.

(** The documents the built-in references name. *)
Hypothesis pool_exchangeAddress :
  poolGet "/exchangeAddress" pool = Some (exchangeAddressSchema exchange).
Hypothesis pool_address : poolGet "/address" pool = Some addressDocument.
Hypothesis pool_wholeNumber : poolGet "/wholeNumber" pool = Some wholeNumberDocument.
Hypothesis pool_hex : poolGet "/hex" pool = Some hexDocument.
Hypothesis pool_order : poolGet "/order" pool = Some orderDocument.
Hypothesis pool_signedOrder : poolGet "/signedOrder" pool = Some signedOrderDocument.
Hypothesis pool_customOrder : poolGet "/customOrder" pool = Some emptySchema.

Ltac evaluate :=
  cbv -[MatchString poolGet checkJSONInteger addressPattern wholeNumberPattern
        hexPattern literalPattern Hex ToLower Z.add Z.sub].

Ltac settle :=
  evaluate;
  repeat (match goal with
          | [ |- context [checkJSONInteger ?q] ] => destruct (checkJSONInteger q)
          | [ |- context [MatchString ?p ?t] ] => destruct (MatchString p t)
          end; evaluate);
  eexists; reflexivity.

Lemma validate_address d s ctx :
  isAddressText s = true ->
  validateRecursive (S (S d)) pool (refTo "/address") (JString s) ctx = Some pass.
Proof.
  intros H. evaluate. rewrite pool_address. evaluate.
  now rewrite MatchString_address.
Qed.

Lemma validate_hex d s ctx :
  isHexText s = true ->
  validateRecursive (S (S d)) pool (refTo "/hex") (JString s) ctx = Some pass.
Proof.
  intros H. evaluate. rewrite pool_hex. evaluate.
  now rewrite MatchString_hex.
Qed.

Lemma validate_wholeNumber d v ctx :
  isWholeNumber v = true ->
  validateRecursive (S (S (S d))) pool (refTo "/wholeNumber") v ctx = Some pass.
Proof.
  intros H. evaluate. rewrite pool_wholeNumber.
  destruct v as [| | q | s | |]; try discriminate.
  - cbn in H. evaluate. rewrite H. reflexivity.
  - destruct s as [|c s]; [discriminate|]. cbn [isWholeNumber] in H.
    evaluate. rewrite MatchString_wholeNumber by (discriminate || assumption).
    reflexivity.
Qed.

Lemma validate_exchangeAddress d s ctx :
  exists r,
    validateRecursive (S (S (S d))) pool (refTo "/exchangeAddress") (JString s) ctx
    = Some r
    /\ Valid r = matchesExchange exchange s.
Proof.
  evaluate. rewrite pool_exchangeAddress.
  unfold matchesExchange. evaluate.
  destruct (MatchString (literalPattern (Hex exchange)) s),
           (MatchString (literalPattern (ToLower (Hex exchange))) s);
    cbn; eauto.
Qed.

Lemma validate_exchangeAddress_errors d s ctx :
  matchesExchange exchange s = false ->
  exists r,
    validateRecursive (S (S (S d))) pool (refTo "/exchangeAddress") (JString s) ctx
    = Some r
    /\ In (NumberOneOfError ctx) (errors r).
Proof.
  evaluate. rewrite pool_exchangeAddress.
  unfold matchesExchange. evaluate.
  destruct (MatchString (literalPattern (Hex exchange)) s),
           (MatchString (literalPattern (ToLower (Hex exchange))) s);
    cbn; try discriminate; intros _; eexists; (split; [reflexivity|]); cbn; auto.
Qed.

(** Validation against each schema of a property ends, whatever the value. *)
Lemma total_address d node ctx :
  exists r, validateRecursive (S (S d)) pool (refTo "/address") node ctx = Some r.
Proof.
  evaluate. rewrite pool_address. destruct node; settle.
Qed.

Lemma total_hex d node ctx :
  exists r, validateRecursive (S (S d)) pool (refTo "/hex") node ctx = Some r.
Proof.
  evaluate. rewrite pool_hex. destruct node; settle.
Qed.

Lemma total_wholeNumber d node ctx :
  exists r,
    validateRecursive (S (S (S d))) pool (refTo "/wholeNumber") node ctx = Some r.
Proof.
  evaluate. rewrite pool_wholeNumber. destruct node; settle.
Qed.

Lemma total_exchangeAddress d node ctx :
  exists r,
    validateRecursive (S (S (S d))) pool (refTo "/exchangeAddress") node ctx = Some r.
Proof.
  evaluate. rewrite pool_exchangeAddress. destruct node; settle.
Qed.

Lemma total_orderProperties d :
  Forall (fun '(p, s) =>
            forall v c, exists r, validateRecursive (S (S (S d))) pool s v c = Some r)
    orderProperties.
Proof.
  unfold orderProperties.
  repeat constructor; intros v c;
    first [ apply total_address | apply total_hex | apply total_wholeNumber
          | apply total_exchangeAddress ].
Qed.

Lemma validate_ref d name target node ctx :
  poolGet name pool = Some target ->
  validateRecursive (S d) pool (refTo name) node ctx
  = validateRecursive d pool target node ctx.
Proof.
  intros H. cbn [validateRecursive ref refTo]. now rewrite H.
Qed.

Lemma validate_order_eq d m ctx :
  validateRecursive (S d) pool orderDocument (JObject m) ctx
  = match
      propertiesLoop (fun child n c => validateRecursive d pool child n c)
        orderProperties m ctx (validateRequired orderRequired m ctx emptyResult)
    with
    | Some r3 => Some (incrementScore r3)
    | None => None
    end.
Proof. reflexivity. Qed.

Lemma validate_signature_eq d m ctx :
  validateRecursive (S d) pool signatureSchema (JObject m) ctx
  = match
      propertiesLoop (fun child n c => validateRecursive d pool child n c)
        [("signature", refTo "/hex")] m ctx
        (validateRequired ["signature"] m ctx emptyResult)
    with
    | Some r3 => Some (incrementScore r3)
    | None => None
    end.
Proof. reflexivity. Qed.

(** Validation of any object against the order schema ends, and reports
    the required members that are missing. *)
Lemma validate_order_total d m ctx :
  exists r,
    validateRecursive (S (S (S (S d)))) pool orderDocument (JObject m) ctx = Some r
    /\ forall k, In k orderRequired -> member k m = None ->
                 In (RequiredError ctx k) (errors r).
Proof.
  rewrite validate_order_eq.
  destruct (propertiesLoop_total
              (fun child n c => validateRecursive (S (S (S d))) pool child n c)
              orderProperties m ctx (total_orderProperties d)
              (validateRequired orderRequired m ctx emptyResult))
    as (r & -> & Hr).
  eexists. split; [reflexivity|].
  intros k Hk Hm. cbn [errors incrementScore]. apply Hr.
  now apply validateRequired_missing.
Qed.

Lemma validate_signature_total d m ctx :
  exists r,
    validateRecursive (S (S (S d))) pool signatureSchema (JObject m) ctx = Some r
    /\ (member "signature" m = None ->
        In (RequiredError ctx "signature") (errors r)).
Proof.
  rewrite validate_signature_eq.
  destruct (propertiesLoop_total
              (fun child n c => validateRecursive (S (S d)) pool child n c)
              [("signature", refTo "/hex")] m ctx
              ltac:(repeat constructor; intros v c; apply total_hex)
              (validateRequired ["signature"] m ctx emptyResult))
    as (r & -> & Hr).
  eexists. split; [reflexivity|].
  intros Hm. cbn [errors incrementScore]. apply Hr.
  apply validateRequired_missing; [now left | exact Hm].
Qed.

(** The validation of an object against the root order schema ends; its
    errors are those of the order schema and of the signature schema,
    and possibly more. *)
Lemma validate_root d m :
  exists r ro rs,
    validateRecursive (S (S (S (S (S (S (S (S d)))))))) pool rootOrderDocument
      (JObject m) ["(root)"] = Some r
    /\ validateRecursive (S (S (S (S d)))) pool orderDocument (JObject m) ["(root)"]
       = Some ro
    /\ validateRecursive (S (S (S (S (S d))))) pool signatureSchema (JObject m)
         ["(root)"] = Some rs
    /\ (errors ro = [] -> errors rs = [] -> errors r = [])
    /\ (forall e, In e (errors ro) \/ In e (errors rs) -> In e (errors r)).
Proof.
  destruct (validate_order_total d m ["(root)"]) as (ro & Hro & _).
  destruct (validate_signature_total (S (S d)) m ["(root)"]) as (rs & Hrs & _).
  assert (Forall2
            (fun alt r =>
               validateRecursive (S (S (S (S (S d))))) pool alt (JObject m) ["(root)"]
               = Some r)
            (allOf signedOrderDocument) [ro; rs]) as Hsigned.
  { repeat constructor; [|exact Hrs].
    now rewrite (validate_ref _ _ _ _ _ pool_order). }
  destruct (validate_allOf _ pool signedOrderDocument m ["(root)"] [ro; rs]
              eq_refl eq_refl eq_refl eq_refl eq_refl eq_refl eq_refl Hsigned)
    as (rso & Hrso & Hvalid & Hin).
  assert (Forall2
            (fun alt r =>
               validateRecursive (S (S (S (S (S (S (S d))))))) pool alt (JObject m)
                 ["(root)"] = Some r)
            (allOf rootOrderDocument) [pass; rso]) as Hroot.
  { repeat constructor.
    - rewrite (validate_ref _ _ _ _ _ pool_customOrder). reflexivity.
    - now rewrite (validate_ref _ _ _ _ _ pool_signedOrder). }
  destruct (validate_allOf _ pool rootOrderDocument m ["(root)"] [pass; rso]
              eq_refl eq_refl eq_refl eq_refl eq_refl eq_refl eq_refl Hroot)
    as (r & Hr & Hvalid' & Hin').
  exists r, ro, rs. repeat split; try assumption.
  - intros Eo Es. apply Hvalid'. cbn [forallb]. rewrite andb_true_r.
    apply andb_true_iff. split; [reflexivity|].
    apply Valid_errors, Hvalid. cbn [forallb]. rewrite andb_true_r.
    apply andb_true_iff. split; now apply Valid_errors.
  - intros e He. apply (Hin' rso); [right; now left|].
    destruct He as [He|He]; [apply (Hin ro) | apply (Hin rs)];
      cbn; auto.
Qed.

Lemma memberIs_some P m k : memberIs P m k = true -> member k m <> None.
Proof.
  unfold memberIs. destruct (member k m); congruence.
Qed.

Ltac fields H :=
  unfold orderShape, addressFields, wholeNumberFields, hexFields in H;
  cbn [forallb] in H;
  repeat match goal with
         | [ H' : (_ && _) = true |- _ ] =>
             let F := fresh "F" in apply andb_true_iff in H' as [H' F]
         end.

Lemma orderShape_members exchangeText m :
  orderShape exchangeText m = true ->
  forall k, In k signedOrderRequired -> member k m <> None.
Proof.
  intros H k Hk. fields H.
  unfold signedOrderRequired, orderRequired in Hk. cbn [app In] in Hk.
  repeat (destruct Hk as [<-|Hk]; [eapply memberIs_some; eassumption|]).
  contradiction.
Qed.

Ltac shaped :=
  let v := fresh "v" in
  let Hv := fresh "Hv" in
  intros v Hv;
  match goal with
  | [ Hm : memberIs (isText isAddressText) _ ?k = true |- context [?k] ] =>
      unfold memberIs in Hm; rewrite Hv in Hm;
      destruct v; try discriminate; cbn [isText] in Hm;
      eexists; split; [apply validate_address; exact Hm | reflexivity]
  | [ Hm : memberIs (isText isHexText) _ ?k = true |- context [?k] ] =>
      unfold memberIs in Hm; rewrite Hv in Hm;
      destruct v; try discriminate; cbn [isText] in Hm;
      eexists; split; [apply validate_hex; exact Hm | reflexivity]
  | [ Hm : memberIs isWholeNumber _ ?k = true |- context [?k] ] =>
      unfold memberIs in Hm; rewrite Hv in Hm;
      eexists; split; [apply validate_wholeNumber; exact Hm | reflexivity]
  | [ Hm : memberIs (isText (matchesExchange exchange)) _ ?k = true
      |- context [?k] ] =>
      unfold memberIs in Hm; rewrite Hv in Hm;
      destruct v as [| | | s | |]; try discriminate; cbn [isText] in Hm;
      let r := fresh "r" in
      let Hr := fresh "Hr" in
      let Hvr := fresh "Hvr" in
      match goal with
      | [ |- context [validateRecursive (S (S (S ?d))) _ _ _ ?c] ] =>
          destruct (validate_exchangeAddress d s c) as (r & Hr & Hvr)
      end;
      exists r; split; [exact Hr | apply Valid_errors; now rewrite Hvr]
  end.

(** An object of the right shape, with an exchange address that the
    exchange schema accepts, has no error against the order schema or the
    signature schema. *)
Lemma validate_order_valid d m ctx ro :
  orderShape (matchesExchange exchange) m = true ->
  validateRecursive (S (S (S (S d)))) pool orderDocument (JObject m) ctx = Some ro ->
  errors ro = [].
Proof.
  intros H Hro. pose proof (orderShape_members _ m H) as Hmem.
  rewrite validate_order_eq in Hro. fields H.
  assert (Forall (fun '(p, s) =>
                    forall v, member p m = Some v ->
                              exists r,
                                validateRecursive (S (S (S d))) pool s v
                                  (ctx ++ [p])%list = Some r
                                /\ errors r = [])
            orderProperties) as Hall.
  { unfold orderProperties. repeat constructor; shaped. }
  destruct (propertiesLoop_valid
              (fun child n c => validateRecursive (S (S (S d))) pool child n c)
              orderProperties m ctx Hall
              (validateRequired orderRequired m ctx emptyResult))
    as (r' & Hr' & He).
  rewrite Hr' in Hro. injection Hro as <-. cbn [errors incrementScore].
  rewrite He. apply validateRequired_present.
  intros p Hp. apply Hmem. unfold signedOrderRequired. apply in_or_app. now left.
Qed.

Lemma validate_signature_valid d m ctx rs :
  orderShape (matchesExchange exchange) m = true ->
  validateRecursive (S (S (S d))) pool signatureSchema (JObject m) ctx = Some rs ->
  errors rs = [].
Proof.
  intros H Hrs. pose proof (orderShape_members _ m H) as Hmem.
  rewrite validate_signature_eq in Hrs. fields H.
  assert (Forall (fun '(p, s) =>
                    forall v, member p m = Some v ->
                              exists r,
                                validateRecursive (S (S d)) pool s v
                                  (ctx ++ [p])%list = Some r
                                /\ errors r = [])
            [("signature", refTo "/hex")]) as Hall.
  { repeat constructor; shaped. }
  destruct (propertiesLoop_valid
              (fun child n c => validateRecursive (S (S d)) pool child n c)
              [("signature", refTo "/hex")] m ctx Hall
              (validateRequired ["signature"] m ctx emptyResult))
    as (r' & Hr' & He).
  rewrite Hr' in Hrs. injection Hrs as <-. cbn [errors incrementScore].
  rewrite He. apply validateRequired_present.
  intros p Hp. apply Hmem. unfold signedOrderRequired. apply in_or_app. now right.
Qed.

Lemma validate_order_exchange_error d m ctx s ro :
  matchesExchange exchange s = false ->
  member "exchangeAddress" m = Some (JString s) ->
  validateRecursive (S (S (S (S d)))) pool orderDocument (JObject m) ctx = Some ro ->
  In (NumberOneOfError (ctx ++ ["exchangeAddress"])%list) (errors ro).
Proof.
  intros Hx Hm Hro. rewrite validate_order_eq in Hro.
  destruct (validate_exchangeAddress_errors d s (ctx ++ ["exchangeAddress"])%list Hx)
    as (r & Hr & He).
  destruct (propertiesLoop _ _ _ _ _) as [r3|] eqn:E; [|discriminate].
  injection Hro as <-. cbn [errors incrementScore].
  refine (propertiesLoop_error _ orderProperties m ctx "exchangeAddress"
            (refTo "/exchangeAddress") (JString s) r _ _ Hm Hr He _ _ E).
  unfold orderProperties. cbn. tauto.
Qed.

End OrderSchema.

(** ** Validation by a filter *)

Section FilterValidation.

Context {C : Collaborators}.
Import patternFacts.

Lemma orderDocuments_builtins exchange custom :
  let pool := orderDocuments exchange custom in
  poolGet "/exchangeAddress" pool = Some (exchangeAddressSchema exchange)
  /\ poolGet "/address" pool = Some addressDocument
  /\ poolGet "/wholeNumber" pool = Some wholeNumberDocument
  /\ poolGet "/hex" pool = Some hexDocument
  /\ poolGet "/order" pool = Some orderDocument
  /\ poolGet "/signedOrder" pool = Some signedOrderDocument
  /\ poolGet "/customOrder" pool = Some custom.
Proof. repeat split. Qed.

Lemma newLoader_ok chain text contractAddresses custom :
  GetContractAddressesForChainID chain = inr contractAddresses ->
  loadSchema text = inr custom ->
  id custom = None ->
  newLoader chain text
  = (Some {| pool := tl (orderDocuments (Exchange contractAddresses) custom) |}, None).
Proof.
  intros Hl Hs Hid. unfold newLoader, loadExchangeAddress. rewrite Hl.
  set (exchange := Exchange contractAddresses).
  replace (AddSchema NewSchemaLoader "/exchangeAddress"
             (Literal (exchangeAddressSchema exchange)))
    with ({| pool := [("/exchangeAddress", exchangeAddressSchema exchange)] |},
          @None error) by reflexivity.
  replace (AddSchemas
             {| pool := [("/exchangeAddress", exchangeAddressSchema exchange)] |}
             builtInSchemas)
    with ({| pool := [ ("/exchangeAddress", exchangeAddressSchema exchange);
                       ("/address", addressDocument);
                       ("/wholeNumber", wholeNumberDocument);
                       ("/hex", hexDocument);
                       ("/order", orderDocument);
                       ("/signedOrder", signedOrderDocument) ] |},
          @None error) by reflexivity.
  unfold AddSchema. cbn [LoadJSON]. rewrite Hs.
  cbn [pool poolGet String.eqb Ascii.eqb Bool.eqb app].
  unfold registerId. rewrite Hid. reflexivity.
Qed.

(** The order schema of a filter that [New] returns, for a custom schema
    with no id of its own. *)
Lemma New_orderSchema chain text f custom :
  New chain text = Ok f ->
  loadSchema text = inr custom ->
  id custom = None ->
  exists contractAddresses,
    GetContractAddressesForChainID chain = inr contractAddresses
    /\ orderSchema f
       = {| documents := orderDocuments (Exchange contractAddresses) custom;
            rootSchema := rootOrderDocument |}.
Proof.
  intros HN HL Hid.
  destruct (GetContractAddressesForChainID chain) as [e|ca] eqn:El.
  - unfold New, newLoader, loadExchangeAddress in HN. rewrite El in HN. discriminate.
  - exists ca. split; [reflexivity|].
    unfold New in HN. rewrite (newLoader_ok chain text ca custom El HL Hid) in HN.
    unfold Compile at 1 in HN. unfold compileWith in HN.
    cbn [LoadJSON rootOrderSchemaLoader] in HN.
    change (id rootOrderDocument) with (Some "/rootOrder") in HN.
    cbv iota beta in HN.
    change (("/rootOrder", rootOrderDocument)
              :: pool {| pool := tl (orderDocuments (Exchange ca) custom) |})
      with (orderDocuments (Exchange ca) custom) in HN.
    destruct (refsResolve (orderDocuments (Exchange ca) custom) rootOrderDocument
              && forallb (fun '(_, doc) =>
                            refsResolve (orderDocuments (Exchange ca) custom) doc)
                   (orderDocuments (Exchange ca) custom));
      [|discriminate].
    cbn [bind] in HN.
    destruct (AddSchemasTo _ _); cbn [bind] in HN; try discriminate.
    destruct (Compile _ _); cbn [bind] in HN; try discriminate.
    injection HN as <-. reflexivity.
Qed.

Lemma enough_depth : (8 <= maxDepth)%nat -> exists d, maxDepth = (8 + d)%nat.
Proof.
  intros H. exists (maxDepth - 8)%nat. lia.
Qed.

(** What [ValidateOrderJSON] returns on an object, for a filter of the
    default custom schema: the result of the root order schema, which
    carries the errors of the order schema and of the signature schema. *)
Lemma ValidateOrderJSON_root chain f contractAddresses orderJSON m :
  New chain DefaultCustomOrderSchema = Ok f ->
  loadSchema DefaultCustomOrderSchema = inr emptySchema ->
  GetContractAddressesForChainID chain = inr contractAddresses ->
  (8 <= maxDepth)%nat ->
  loadDocument orderJSON = inr (JObject m) ->
  exists d r ro rs,
    let pool := orderDocuments (Exchange contractAddresses) emptySchema in
    ValidateOrderJSON f orderJSON = Ok r
    /\ validateRecursive (S (S (S (S d)))) pool orderDocument (JObject m) ["(root)"]
       = Some ro
    /\ validateRecursive (S (S (S (S (S d))))) pool signatureSchema (JObject m)
         ["(root)"] = Some rs
    /\ (errors ro = [] -> errors rs = [] -> errors r = [])
    /\ (forall e, In e (errors ro) \/ In e (errors rs) -> In e (errors r)).
Proof.
  intros HN HS HL HD Hdoc.
  destruct (New_orderSchema _ _ _ _ HN HS eq_refl) as (ca & HL' & Hf).
  rewrite HL in HL'. injection HL' as <-.
  destruct (enough_depth HD) as (d & Hd).
  destruct (orderDocuments_builtins (Exchange contractAddresses) emptySchema)
    as (P1 & P2 & P3 & P4 & P5 & P6 & P7).
  destruct (validate_root _ (Exchange contractAddresses) P1 P2 P3 P4 P5 P6 P7 d m)
    as (r & ro & rs & Hr & Hro & Hrs & Hvalid & Hin).
  exists d, r, ro, rs. cbv zeta. repeat split; try assumption.
  unfold ValidateOrderJSON, Validate. rewrite Hdoc. unfold validateDocument.
  rewrite Hf. cbn [documents rootSchema]. rewrite Hd.
  change (8 + d)%nat with (S (S (S (S (S (S (S (S d)))))))). now rewrite Hr.
Qed.


Lemma checksumFrom_digits hash digits :
  allBytes isDigit digits = true ->
  forall i, checksumFrom i digits hash = digits.
Proof.
  induction digits as [|c digits IH]; intros H i; [reflexivity|].
  cbn [allBytes] in H. apply andb_true_iff in H as [Hc Hd].
  cbn [checksumFrom]. rewrite (IH Hd).
  unfold isDigit, fmt.inRange in Hc. apply andb_true_iff in Hc as [_ Hc].
  apply Z.leb_le in Hc.
  rewrite Z.gtb_ltb.
  replace (57 <? byteZ c) with false by (symmetry; apply Z.ltb_ge; lia).
  reflexivity.
Qed.

Lemma ToLower_digits digits :
  allBytes isDigit digits = true -> ToLower digits = digits.
Proof.
  induction digits as [|c digits IH]; intros H; [reflexivity|].
  cbn [allBytes] in H. apply andb_true_iff in H as [Hc Hd].
  cbn [ToLower]. rewrite (IH Hd). f_equal.
  unfold isDigit, fmt.inRange in Hc. apply andb_true_iff in Hc as [_ Hc].
  apply Z.leb_le in Hc. unfold lowerByte, fmt.inRange.
  replace (65 <=? byteZ c) with false by (symmetry; apply Z.leb_gt; lia).
  reflexivity.
Qed.

(** The two patterns of an address with no letter among its digits are
    one and the same. *)
Lemma Hex_without_letters exchange :
  allBytes isDigit (hexOf exchange) = true -> ToLower (Hex exchange) = Hex exchange.
Proof.
  intros H. unfold Hex. rewrite checksumFrom_digits by exact H.
  change ("0x" ++ hexOf exchange) with (String "0" (String "x" (hexOf exchange))).
  cbn [ToLower]. now rewrite ToLower_digits.
Qed.

(** Where the checksummed text of the address has an upper-case letter,
    it and its lower-case form both match. *)
Lemma matchesExchange_either exchange :
  Hex exchange <> ToLower (Hex exchange) ->
  matchesExchange exchange (Hex exchange) = true
  /\ matchesExchange exchange (ToLower (Hex exchange)) = true.
Proof.
  intros Hne. unfold matchesExchange. rewrite !MatchString_literal_self.
  split.
  - destruct (MatchString (literalPattern (ToLower (Hex exchange))) (Hex exchange))
      eqn:E; [|reflexivity].
    apply MatchString_literal_same_length in E;
      [contradiction | now rewrite length_ToLower].
  - destruct (MatchString (literalPattern (Hex exchange)) (ToLower (Hex exchange)))
      eqn:E; [|reflexivity].
    apply MatchString_literal_same_length in E;
      [congruence | now rewrite length_ToLower].
Qed.

(** The exchange address of a chain is among the texts its schema
    accepts when its two written forms differ, and only then. *)
Lemma isExchangeText_matches exchange s :
  isExchangeText exchange s = true ->
  matchesExchange exchange s
  = negb (String.eqb (Hex exchange) (ToLower (Hex exchange))).
Proof.
  intros H.
  destruct (String.eqb (Hex exchange) (ToLower (Hex exchange))) eqn:E.
  - apply String.eqb_eq in E. unfold matchesExchange. rewrite <- E.
    apply xorb_nilpotent.
  - apply String.eqb_neq in E. destruct (matchesExchange_either exchange E) as [H1 H2].
    unfold isExchangeText in H.
    apply orb_true_iff in H as [H|H]; apply String.eqb_eq in H; now subst s.
Qed.

Lemma orderShape_exchange (P Q : string -> bool) m :
  orderShape P m = true ->
  exists s,
    member "exchangeAddress" m = Some (JString s) /\ P s = true
    /\ (Q s = true -> orderShape Q m = true).
Proof.
  unfold orderShape. intros H. apply andb_true_iff in H as [H1 H2].
  unfold memberIs in H2.
  destruct (member "exchangeAddress" m) as [[| | | s | |]|] eqn:E; try discriminate.
  cbn [isText] in H2. exists s. split; [reflexivity|]. split; [exact H2|].
  intros HQ. rewrite H1. unfold memberIs. now rewrite E.
Qed.

(** C7.  For a filter of the default custom schema, with the stack deep
    enough for the eight nested calls of the root schema, take an order
    that has every required field, each of the right shape, and whose
    exchange address is the address of the chain in its checksummed or
    its lower-case form.  The order is valid when the two forms differ;
    when they are the same text, as for an address with no letter among
    its digits, the order is not valid: the oneOf of the exchange schema
    counts two matches. *)
Theorem ValidateOrderJSON_wellShaped chain f contractAddresses orderJSON m :
  New chain DefaultCustomOrderSchema = Ok f ->
  loadSchema DefaultCustomOrderSchema = inr emptySchema ->
  GetContractAddressesForChainID chain = inr contractAddresses ->
  (8 <= maxDepth)%nat ->
  loadDocument orderJSON = inr (JObject m) ->
  wellShapedOrder (Exchange contractAddresses) m = true ->
  exists r,
    ValidateOrderJSON f orderJSON = Ok r
    /\ (Hex (Exchange contractAddresses) <> ToLower (Hex (Exchange contractAddresses)) ->
        Valid r = true)
    /\ (Hex (Exchange contractAddresses) = ToLower (Hex (Exchange contractAddresses)) ->
        Valid r = false
        /\ In (NumberOneOfError ["(root)"; "exchangeAddress"]) (errors r)).
Proof.
  intros HN HS HL HD Hdoc Hm.
  destruct (ValidateOrderJSON_root _ _ _ _ _ HN HS HL HD Hdoc)
    as (d & r & ro & rs & Hr & Hro & Hrs & Hvalid & Hin).
  destruct (orderDocuments_builtins (Exchange contractAddresses) emptySchema)
    as (P1 & P2 & P3 & P4 & P5 & P6 & P7).
  unfold wellShapedOrder in Hm.
  destruct (orderShape_exchange _ (matchesExchange (Exchange contractAddresses)) m Hm)
    as (s & Hs & Hx & Hshape).
  pose proof (isExchangeText_matches _ _ Hx) as Hverdict.
  exists r. split; [exact Hr|]. split.
  - intros Hne. apply String.eqb_neq in Hne. rewrite Hne in Hverdict.
    specialize (Hshape Hverdict).
    apply Valid_errors, Hvalid.
    + eapply validate_order_valid; eassumption.
    + eapply (validate_signature_valid _ _ P4 (S (S d))); eassumption.
  - intros Heq. apply String.eqb_eq in Heq. rewrite Heq in Hverdict.
    assert (In (NumberOneOfError ["(root)"; "exchangeAddress"]) (errors r)) as He.
    { apply Hin. left.
      exact (validate_order_exchange_error _ _ P1 d m ["(root)"] s ro Hverdict Hs Hro). }
    split; [|exact He].
    unfold Valid. destruct (errors r); [contradiction | reflexivity].
Qed.

(** C5 at its failing input.  On a chain whose exchange address has no
    letter among its hexadecimal digits, an order is not valid whatever
    text its exchangeAddress is, the address itself included: the oneOf
    of the exchange schema counts two matches or none. *)
Theorem ValidateOrderJSON_exchange_without_letters
  chain f contractAddresses orderJSON m s :
  New chain DefaultCustomOrderSchema = Ok f ->
  loadSchema DefaultCustomOrderSchema = inr emptySchema ->
  GetContractAddressesForChainID chain = inr contractAddresses ->
  (8 <= maxDepth)%nat ->
  allBytes isDigit (hexOf (Exchange contractAddresses)) = true ->
  loadDocument orderJSON = inr (JObject m) ->
  member "exchangeAddress" m = Some (JString s) ->
  exists r,
    ValidateOrderJSON f orderJSON = Ok r
    /\ Valid r = false
    /\ In (NumberOneOfError ["(root)"; "exchangeAddress"]) (errors r).
Proof.
  intros HN HS HL HD Hdigits Hdoc Hm.
  destruct (ValidateOrderJSON_root _ _ _ _ _ HN HS HL HD Hdoc)
    as (d & r & ro & rs & Hr & Hro & Hrs & _ & Hin).
  destruct (orderDocuments_builtins (Exchange contractAddresses) emptySchema)
    as (P1 & P2 & P3 & P4 & P5 & P6 & P7).
  assert (matchesExchange (Exchange contractAddresses) s = false) as Hx.
  { unfold matchesExchange. rewrite Hex_without_letters by exact Hdigits.
    apply xorb_nilpotent. }
  assert (In (NumberOneOfError ["(root)"; "exchangeAddress"]) (errors r)) as He.
  { apply Hin. left.
    exact (validate_order_exchange_error _ _ P1 d m ["(root)"] s ro Hx Hm Hro). }
  exists r. repeat split; try assumption.
  unfold Valid. destruct (errors r); [contradiction | reflexivity].
Qed.

End FilterValidation.
(** ** The statements on the sample collaborators *)

Section OnSample.

#[local] Existing Instance sample.collaborators.

Lemma NewFromTopic_generateTopic_witness :
  let f := sample.blankFilter 1337 sample.schemaTextReordered in
  (fmt.intRange (chainID f)
   /\ canonicalOrderSchemaJSON (rawCustomOrderSchema f) <> "")
  /\ NewFromTopic (generateTopic f)
     = New 1337 (canonicalOrderSchemaJSON sample.schemaTextReordered).
Proof.
  assert (fmt.intRange 1337) as H1 by (unfold fmt.intRange; lia).
  assert (canonicalOrderSchemaJSON sample.schemaTextReordered <> "") as H2
      by (vm_compute; discriminate).
  split; [split; assumption|].
  exact (proj1 (NewFromTopic_generateTopic
                  (sample.blankFilter 1337 sample.schemaTextReordered) H1 H2)).
Defined.

Lemma NewFromTopic_wrong_version_witness :
  (4 <> 3 /\ fmt.intRange 4
   /\ allBytes fmt.isWordByte "chain/1337/schema/e30=" = true)
  /\ NewFromTopic "/0x-orders/version/4/chain/1337/schema/e30="
     = Err (WrongTopicVersionError 3 4).
Proof.
  assert (4 <> 3) as H1 by lia.
  assert (fmt.intRange 4) as H2 by (unfold fmt.intRange; lia).
  assert (allBytes fmt.isWordByte "chain/1337/schema/e30=" = true) as H3 by reflexivity.
  split; [exact (conj H1 (conj H2 H3))|].
  exact (proj2 (NewFromTopic_wrong_version 4 H1) "chain/1337/schema/e30=" H2 H3).
Defined.

Lemma New_unknown_chain_panics_witness :
  GetContractAddressesForChainID 999 = inl (LibraryError "invalid chain")
  /\ New 999 DefaultCustomOrderSchema = Panic.
Proof.
  split; [reflexivity|].
  now apply (New_unknown_chain_panics 999 DefaultCustomOrderSchema
               (LibraryError "invalid chain")).
Defined.

Lemma generateTopic_unparseable_witness :
  let f := sample.blankFilter 1337 sample.brokenText in
  Unmarshal (rawCustomOrderSchema f) emptyStruct = (emptyStruct, Some sample.syntaxError)
  /\ generateTopic f = "/0x-orders/version/3/chain/1337/schema/e30=".
Proof.
  split; [reflexivity|].
  exact (proj1 (generateTopic_unparseable (sample.blankFilter 1337 sample.brokenText)
                  sample.syntaxError eq_refl eq_refl)).
Defined.

Lemma Topic_idempotent_witness :
  let f := sample.newFilter 1337 sample.schemaText in
  New 1337 sample.schemaText = Ok f
  /\ fst (TopicCalls 3 f) = repeat (generateTopic f) 3.
Proof.
  assert (New 1337 sample.schemaText = Ok (sample.newFilter 1337 sample.schemaText))
    as H by reflexivity.
  split; [exact H|].
  destruct (Topic_idempotent 1337 sample.schemaText _ H) as (_ & _ & Hn).
  now rewrite (Hn 2%nat).
Defined.

Lemma Topic_canonical_witness :
  let fa := sample.newFilter 1337 sample.schemaText in
  let fb := sample.newFilter 1337 sample.schemaTextReordered in
  sample.schemaText <> sample.schemaTextReordered
  /\ fst (Topic fa) = fst (Topic fb).
Proof.
  split; [discriminate|].
  apply (Topic_canonical 1337 sample.schemaText sample.schemaTextReordered);
    reflexivity.
Defined.

Lemma ValidateOrderJSON_wellShaped_witness :
  let f := sample.newFilter 1337 DefaultCustomOrderSchema in
  let orderJSON :=
    sample.objectText
      (sample.orderFields "0x48bacb9266a570d521063ef5dd96e61686dbe788") in
  let f' := sample.newFilter 1111 DefaultCustomOrderSchema in
  let orderJSON' :=
    sample.objectText
      (sample.orderFields "0x1111111111111111111111111111111111111111") in
  (wellShapedOrder (Exchange sample.exchange1337) (sample.membersOf orderJSON) = true
   /\ exists r, ValidateOrderJSON f orderJSON = Ok r /\ Valid r = true)
  /\ (wellShapedOrder (Exchange sample.exchange1111) (sample.membersOf orderJSON') = true
      /\ exists r, ValidateOrderJSON f' orderJSON' = Ok r /\ Valid r = false).
Proof.
  assert (8 <= maxDepth)%nat as HD by (cbn; lia).
  split; (split; [reflexivity|]).
  - assert (New 1337 DefaultCustomOrderSchema
            = Ok (sample.newFilter 1337 DefaultCustomOrderSchema)) as HN by reflexivity.
    destruct (ValidateOrderJSON_wellShaped 1337 _ sample.exchange1337
                (sample.objectText
                   (sample.orderFields "0x48bacb9266a570d521063ef5dd96e61686dbe788"))
                (sample.membersOf
                   (sample.objectText
                      (sample.orderFields "0x48bacb9266a570d521063ef5dd96e61686dbe788")))
                HN eq_refl eq_refl HD eq_refl eq_refl)
      as (r & Hr & Hgood & _).
    exists r. split; [exact Hr|]. apply Hgood. vm_compute. discriminate.
  - assert (New 1111 DefaultCustomOrderSchema
            = Ok (sample.newFilter 1111 DefaultCustomOrderSchema)) as HN by reflexivity.
    destruct (ValidateOrderJSON_wellShaped 1111 _ sample.exchange1111
                (sample.objectText
                   (sample.orderFields "0x1111111111111111111111111111111111111111"))
                (sample.membersOf
                   (sample.objectText
                      (sample.orderFields "0x1111111111111111111111111111111111111111")))
                HN eq_refl eq_refl HD eq_refl eq_refl)
      as (r & Hr & _ & Hbad).
    exists r. split; [exact Hr|]. apply Hbad. reflexivity.
Defined.


Lemma ValidateOrderJSON_exchange_without_letters_witness :
  let f := sample.newFilter 1111 DefaultCustomOrderSchema in
  let orderJSON :=
    sample.objectText
      (sample.orderFields "0x1111111111111111111111111111111111111111") in
  (Hex (Exchange sample.exchange1111) = "0x1111111111111111111111111111111111111111"
   /\ member "exchangeAddress" (sample.membersOf orderJSON)
      = Some (JString (Hex (Exchange sample.exchange1111))))
  /\ exists r,
       ValidateOrderJSON f orderJSON = Ok r
       /\ Valid r = false
       /\ In (NumberOneOfError ["(root)"; "exchangeAddress"]) (errors r).
Proof.
  split; [split; reflexivity|].
  apply (ValidateOrderJSON_exchange_without_letters 1111 _ sample.exchange1111 _
           (sample.membersOf
              (sample.objectText
                 (sample.orderFields "0x1111111111111111111111111111111111111111")))
           "0x1111111111111111111111111111111111111111");
    try reflexivity.
  cbn. lia.
Defined.

End OnSample.
